(** * Upload lifecycle of jackalope-backend: record store, routes, promotion

    A shallow embedding of
      - src/services/uploadDb.ts      (UploadDbService, the record store),
      - src/services/s3Upload.ts      (S3UploadService, the object store client),
      - src/services/fileProcessing.ts (FileProcessorService, promotion),
      - src/routes/upload.ts          (the upload routes),
      - src/schemas/upload.ts         (the request schemas),
    followed by the properties of the upload state machine.

    Conventions.
      - The [uploads] table is a finite map keyed by its UNIQUE column
        [upload_id]; a query [.eq('upload_id', u).eq('user_id', o).single()]
        is a lookup at [u] followed by the owner test.
      - A nullable column is an [option]; a JavaScript [undefined] inside an
        update object is a key that the JSON body drops, i.e. a column the
        update leaves alone.
      - [new Date()] and [Date.now()] read a clock value handed to the
        operation as [now] (milliseconds).
      - Byte counts are integers ([total_size] is a bigint column).
      - What the object store answers (success or an exception) is decided by
        the environment [S3Env]; transport errors of the record store are not
        modelled. *)

From Stdlib Require Import ZArith QArith Qround.
From stdpp Require Import gmap strings list pretty sorting.

Local Open Scope string_scope.
Local Open Scope Z_scope.
Local Open Scope list_scope.

(** ** Data model (uploadDb.ts, s3Upload.ts) *)

Inductive UploadStatus := active | completed | aborted | failed.
Inductive ProcessingStatus := pending | processing | processed | processing_failed.
Inductive UploadType := single | multipart.

#[global] Instance UploadStatus_eq_dec : EqDecision UploadStatus.
Proof. solve_decision. Defined.
#[global] Instance ProcessingStatus_eq_dec : EqDecision ProcessingStatus.
Proof. solve_decision. Defined.
#[global] Instance UploadType_eq_dec : EqDecision UploadType.
Proof. solve_decision. Defined.

(** interface UploadPart *)
Record UploadPart := mkPart {
  partNumber : Z;
  etag : option string;
  size : Z;
  uploadedAt : option Z
}.

(** interface UploadRecord *)
Record UploadRecord := mkRecord {
  id : string;
  user_id : string;
  upload_id : string;
  s3_key : string;
  bucket : string;
  filename : string;
  content_type : string;
  total_size : Z;
  status : UploadStatus;
  processing_status : option ProcessingStatus;
  processing_progress : option Z;
  processing_message : option string;
  upload_type : UploadType;
  parts : list UploadPart;
  created_at : Z;
  updated_at : Z;
  completed_at : option Z;
  final_s3_key : option string;
  final_bucket : option string;
  thumbnail_s3_key : option string;
  thumbnail_url : option string;
  thumbnail_cloudinary_url : option string
}.

(** The object handed to [supabase.from('uploads').update(...)]: one optional
    entry per column that some caller writes.  [None] is an absent key or an
    [undefined] value. *)
Record Patch := mkPatch {
  p_status : option UploadStatus;
  p_completed_at : option Z;
  p_updated_at : option Z;
  p_parts : option (list UploadPart);
  p_final_s3_key : option string;
  p_final_bucket : option string;
  p_thumbnail_s3_key : option string;
  p_thumbnail_url : option string;
  p_thumbnail_cloudinary_url : option string;
  p_processing_status : option ProcessingStatus;
  p_processing_progress : option Z;
  p_processing_message : option string
}.

Definition set_col {A} (new : option A) (old : A) : A :=
  match new with Some v => v | None => old end.

Definition set_null_col {A} (new : option A) (old : option A) : option A :=
  match new with Some v => Some v | None => old end.

Definition apply_patch (p : Patch) (r : UploadRecord) : UploadRecord :=
  {| id := id r;
     user_id := user_id r;
     upload_id := upload_id r;
     s3_key := s3_key r;
     bucket := bucket r;
     filename := filename r;
     content_type := content_type r;
     total_size := total_size r;
     status := set_col (p_status p) (status r);
     processing_status := set_null_col (p_processing_status p) (processing_status r);
     processing_progress := set_null_col (p_processing_progress p) (processing_progress r);
     processing_message := set_null_col (p_processing_message p) (processing_message r);
     upload_type := upload_type r;
     parts := set_col (p_parts p) (parts r);
     created_at := created_at r;
     updated_at := set_col (p_updated_at p) (updated_at r);
     completed_at := set_null_col (p_completed_at p) (completed_at r);
     final_s3_key := set_null_col (p_final_s3_key p) (final_s3_key r);
     final_bucket := set_null_col (p_final_bucket p) (final_bucket r);
     thumbnail_s3_key := set_null_col (p_thumbnail_s3_key p) (thumbnail_s3_key r);
     thumbnail_url := set_null_col (p_thumbnail_url p) (thumbnail_url r);
     thumbnail_cloudinary_url :=
       set_null_col (p_thumbnail_cloudinary_url p) (thumbnail_cloudinary_url r) |}.

(** ** The record store (class UploadDbService) *)

Abbreviation Uploads := (gmap string UploadRecord).

(** [.select('*').eq('upload_id', uploadId).eq('user_id', userId).single()];
    no row is PGRST116, which the service turns into [null]. *)
Definition getUploadRecord (uploadId userId : string) (db : Uploads)
  : option UploadRecord :=
  match db !! uploadId with
  | Some r => if bool_decide (user_id r = userId) then Some r else None
  | None => None
  end.

(** [.update(p).eq('upload_id', uploadId).eq('user_id', userId)]: the rows
    that match are rewritten; matching no row is not an error. *)
Definition update_eq (uploadId userId : string) (p : Patch) (db : Uploads)
  : Uploads :=
  match getUploadRecord uploadId userId db with
  | Some r => <[uploadId := apply_patch p r]> db
  | None => db
  end.

(** What [createUploadRecord] receives. *)
Record UploadSpec := mkSpec {
  sp_userId : string;
  sp_uploadId : option string;
  sp_s3Key : string;
  sp_bucket : string;
  sp_filename : string;
  sp_contentType : string;
  sp_totalSize : Z;
  sp_uploadType : UploadType
}.

(** [upload.uploadId || `single-${Date.now()}`]: null and the empty string
    are both falsy. *)
Definition upload_id_or_single (uploadId : option string) (now : Z) : string :=
  match uploadId with
  | Some u => if bool_decide (u = "") then "single-" +:+ pretty now else u
  | None => "single-" +:+ pretty now
  end.

(** [createUploadRecord]: [rowId] is the uuid the table default generates.
    The insert violates [uploads_upload_id_key] when the upload id is taken;
    the service then throws. *)
Definition createUploadRecord (upload : UploadSpec) (rowId : string) (now : Z)
    (db : Uploads) : option (string * Uploads) :=
  let uid := upload_id_or_single (sp_uploadId upload) now in
  match db !! uid with
  | Some _ => None
  | None =>
      Some (rowId,
            <[uid := {| id := rowId;
                        user_id := sp_userId upload;
                        upload_id := uid;
                        s3_key := sp_s3Key upload;
                        bucket := sp_bucket upload;
                        filename := sp_filename upload;
                        content_type := sp_contentType upload;
                        total_size := sp_totalSize upload;
                        status := active;
                        processing_status := Some pending;
                        processing_progress := Some 0;
                        processing_message := None;
                        upload_type := sp_uploadType upload;
                        parts := [];
                        created_at := now;
                        updated_at := now;
                        completed_at := None;
                        final_s3_key := None;
                        final_bucket := None;
                        thumbnail_s3_key := None;
                        thumbnail_url := None;
                        thumbnail_cloudinary_url := None |}]> db)
  end.

(** [parts.findIndex((p) => p.partNumber === partNumber)], with -1 as [None]. *)
Fixpoint findIndex (partNo : Z) (ps : list UploadPart) : option nat :=
  match ps with
  | [] => None
  | p :: ps' =>
      if bool_decide (partNumber p = partNo) then Some 0%nat
      else S <$> findIndex partNo ps'
  end.

(** The body of [updateUploadPart] between its read and its write: copy the
    array, then assign at the found index or push. *)
Definition upsert_parts (newPart : UploadPart) (ps : list UploadPart)
  : list UploadPart :=
  match findIndex (partNumber newPart) ps with
  | Some i => <[i := newPart]> ps
  | None => ps ++ [newPart]
  end.

(** [updateUploadPart]: [None] is the thrown 'Upload record not found'. *)
Definition updateUploadPart (uploadId userId : string) (partNo : Z)
    (tag : string) (sz : Z) (now : Z) (db : Uploads) : option Uploads :=
  match getUploadRecord uploadId userId db with
  | None => None
  | Some record =>
      let newPart := mkPart partNo (Some tag) sz (Some now) in
      let ps := upsert_parts newPart (parts record) in
      Some (update_eq uploadId userId
              (mkPatch None None (Some now) (Some ps)
                       None None None None None None None None) db)
  end.

Definition markUploadCompleted (uploadId userId : string)
    (finalS3Key finalBucket thumbnailS3Key thumbnailUrl thumbnailCloudinaryUrl
       : option string) (now : Z) (db : Uploads) : Uploads :=
  update_eq uploadId userId
    (mkPatch (Some completed) (Some now) (Some now) None
             finalS3Key finalBucket thumbnailS3Key thumbnailUrl
             thumbnailCloudinaryUrl None None None) db.

Definition markUploadAborted (uploadId userId : string) (now : Z)
    (db : Uploads) : Uploads :=
  update_eq uploadId userId
    (mkPatch (Some aborted) None (Some now) None
             None None None None None None None None) db.

Definition markUploadFailed (uploadId userId : string) (now : Z)
    (db : Uploads) : Uploads :=
  update_eq uploadId userId
    (mkPatch (Some failed) None (Some now) None
             None None None None None None None None) db.

(** [Math.max(0, Math.min(100, progress))] *)
Definition clamp_progress (progress : Z) : Z := Z.max 0 (Z.min 100 progress).

Definition updateProcessingStatus (uploadId userId : string)
    (processingStatus : ProcessingStatus) (progress : option Z)
    (message : option string) (now : Z) (db : Uploads) : Uploads :=
  update_eq uploadId userId
    (mkPatch None None (Some now) None None None None None None
             (Some processingStatus) (clamp_progress <$> progress) message) db.

(** The object [getUploadStatus] returns. *)
Record UploadStatusView := mkView {
  upload_status : UploadStatus;
  view_processing_status : option ProcessingStatus;
  view_processing_progress : option Z;
  view_processing_message : option string;
  ready_for_display : bool
}.

(** The expression after [ready_for_display:] in [getUploadStatus]. *)
Definition ready_expr (r : UploadRecord) : bool :=
  bool_decide (status r = completed)
  && (bool_decide (processing_status r = Some processed)
      || bool_decide (processing_status r = None))
  && negb (bool_decide (final_s3_key r = None)).

Definition getUploadStatus (uploadId userId : string) (db : Uploads)
  : option UploadStatusView :=
  match getUploadRecord uploadId userId db with
  | None => None
  | Some data =>
      Some {| upload_status := status data;
              view_processing_status := processing_status data;
              view_processing_progress := processing_progress data;
              view_processing_message := processing_message data;
              ready_for_display := ready_expr data |}
  end.

(** ** Asynchronous operations

    An [async] function is a state transformer on the [World] that either
    resolves with a value or rejects with an error message; the state reached
    before a rejection is kept. *)

Record World := mkWorld {
  uploads : Uploads;                  (* the uploads table *)
  objects : gset (string * string);   (* (bucket, key) of the stored objects *)
  timers : list (string * string)     (* pending setTimeout callbacks *)
}.

Inductive Outcome (A : Type) :=
  | Resolved (a : A)
  | Rejected (message : string).
Arguments Resolved {A} a.
Arguments Rejected {A} message.

Definition Async (A : Type) : Type := World -> Outcome A * World.

#[global] Instance Async_ret : MRet Async := fun A a w => (Resolved a, w).
#[global] Instance Async_bind : MBind Async := fun A B k c w =>
  match c w with
  | (Resolved a, w') => k a w'
  | (Rejected e, w') => (Rejected e, w')
  end.

Definition throw {A} (message : string) : Async A := fun w => (Rejected message, w).

(** [try { body } catch (e) { handler(e) }] *)
Definition try_catch {A} (body : Async A) (handler : string -> Async A) : Async A :=
  fun w =>
    match body w with
    | (Resolved a, w') => (Resolved a, w')
    | (Rejected e, w') => handler e w'
    end.

Definition query {A} (q : Uploads -> A) : Async A :=
  fun w => (Resolved (q (uploads w)), w).

Definition mutate (f : Uploads -> Uploads) : Async unit :=
  fun w => (Resolved tt, mkWorld (f (uploads w)) (objects w) (timers w)).

(** ** The object store client (class S3UploadService) *)

Record S3UploadService := mkS3 {
  tempBucket : string;   (* process.env.S3_TEMP_BUCKET *)
  finalBucket : string   (* process.env.S3_FINAL_BUCKET *)
}.

(** What the object store answers while one operation runs. *)
Record S3Env := mkEnv {
  create_answer : option string;             (* response.UploadId; None: send throws *)
  complete_ok : list (Z * string) -> bool;   (* on the part list as submitted *)
  abort_ok : bool;
  copy_ok : bool;
  delete_ok : string -> string -> bool;
  presigned : string -> string -> string     (* getSignedUrl, by bucket and key *)
}.

Definition put_object (b k : string) : Async unit :=
  fun w => (Resolved tt, mkWorld (uploads w) ({[ (b, k) ]} ∪ objects w) (timers w)).

Definition drop_object (b k : string) : Async unit :=
  fun w => (Resolved tt, mkWorld (uploads w) (objects w ∖ {[ (b, k) ]}) (timers w)).

(** [generateS3Key]: `${userId}/${timestamp}-${filename}` *)
Definition generateS3Key (userId fname : string) (now : Z) : string :=
  userId +:+ "/" +:+ pretty now +:+ "-" +:+ fname.

Definition initiateMultipartUpload (svc : S3UploadService) (env : S3Env)
    (userId fname contentType : string) (totalSize now : Z)
  : Async (string * string) :=
  let key := generateS3Key userId fname now in
  match create_answer env with
  | None => throw "CreateMultipartUpload failed"
  | Some u =>
      if bool_decide (u = "") then throw "Failed to initiate multipart upload"
      else mret (u, key)
  end.

Definition part_le (a b : Z * string) : Prop := a.1 ≤ b.1.

#[global] Instance part_le_dec : RelDecision part_le.
Proof. intros a b. unfold part_le. apply _. Defined.

(** [completeMultipartUpload]: the parts are sorted by PartNumber, then sent. *)
Definition completeMultipartUpload (env : S3Env) (b k uploadId : string)
    (ps : list (Z * string)) : Async unit :=
  if complete_ok env (merge_sort part_le ps) then put_object b k
  else throw "CompleteMultipartUpload failed".

Definition abortMultipartUpload (env : S3Env) (b k uploadId : string) : Async unit :=
  if abort_ok env then mret tt else throw "AbortMultipartUpload failed".

Definition copyObject (env : S3Env) (sourceBucket sourceKey targetBucket targetKey : string)
  : Async unit :=
  if copy_ok env then put_object targetBucket targetKey
  else throw "CopyObject failed".

Definition deleteObject (env : S3Env) (b k : string) : Async unit :=
  if delete_ok env b k then drop_object b k else throw "DeleteObject failed".

(** ** Promotion (class FileProcessorService) *)

Record ProcessingResult := mkResult {
  success : bool;
  finalKey : option string;
  thumbnailKey : option string;
  thumbnailUrl : option string;
  error : option string
}.

Definition failure (message : string) : ProcessingResult :=
  mkResult false None None None (Some message).

Record ScanResult := mkScan { clean : bool; details : option string }.

(** [performVirusScan]: 'For now, assume all files are clean'. *)
Definition performVirusScan (key : string) : Async ScanResult :=
  mret (mkScan true None).

Definition ignore_errors (c : Async unit) : Async unit :=
  try_catch c (fun _ => mret tt).

Definition cleanupFailedProcessing (svc : S3UploadService) (env : S3Env)
    (finalKey tempKey : string) : Async unit :=
  ignore_errors (deleteObject env (finalBucket svc) finalKey) ;;
  ignore_errors (deleteObject env (tempBucket svc) tempKey).

(** [if (thumbnailKey)]: undefined and the empty string are falsy. *)
Definition truthy (s : option string) : bool :=
  match s with
  | Some k => negb (bool_decide (k = ""))
  | None => false
  end.

(** [processUpload], with the scanner it awaits as a parameter. *)
Definition processUpload_with (scan : string -> Async ScanResult)
    (svc : S3UploadService) (env : S3Env) (now : Z) (uploadId userId : string)
  : Async ProcessingResult :=
  try_catch
    (uploadRecord ← query (getUploadRecord uploadId userId);
     match uploadRecord with
     | None => mret (failure "Upload record not found")
     | Some r =>
         if negb (bool_decide (status r = completed))
         then mret (failure "Upload not completed")
         else
           let finalKey := s3_key r in
           try_catch
             (copyObject env (tempBucket svc) (s3_key r) (finalBucket svc) finalKey ;;
              let thumbnailKey : option string := None in
              let thumbnailUrl : option string := None in
              let thumbnailCloudinaryUrl : option string := None in
              virusScanResult ← scan finalKey;
              if negb (clean virusScanResult)
              then
                deleteObject env (finalBucket svc) finalKey ;;
                (if truthy thumbnailKey
                 then deleteObject env (finalBucket svc) (default "" thumbnailKey)
                 else mret tt) ;;
                mret (failure "File failed virus scan")
              else
                mutate (markUploadCompleted uploadId userId (Some finalKey)
                          (Some (finalBucket svc)) thumbnailKey thumbnailUrl
                          thumbnailCloudinaryUrl now) ;;
                deleteObject env (tempBucket svc) (s3_key r) ;;
                mret (mkResult true (Some finalKey) thumbnailKey thumbnailUrl None))
             (fun processingError =>
                cleanupFailedProcessing svc env finalKey (s3_key r) ;;
                mutate (markUploadFailed uploadId userId now) ;;
                throw processingError)
     end)
    (fun e => mret (failure e)).

Definition processUpload := processUpload_with performVirusScan.

(** [scheduleProcessing]: registers the timer whose callback runs
    [processUpload]. *)
Definition scheduleProcessing (uploadId userId : string) : Async unit :=
  fun w => (Resolved tt,
            mkWorld (uploads w) (objects w) (timers w ++ [(uploadId, userId)])).

(** The event loop fires the oldest timer. *)
Definition fire_timer (svc : S3UploadService) (env : S3Env) (now : Z) (w : World)
  : option (Outcome ProcessingResult * World) :=
  match timers w with
  | [] => None
  | (uploadId, userId) :: rest =>
      Some (processUpload svc env now uploadId userId
              (mkWorld (uploads w) (objects w) rest))
  end.

(** ** Request schemas (schemas/upload.ts) *)

Record InitiateUploadRequest := mkInitiate {
  ini_filename : string;
  ini_contentType : string;
  ini_totalSize : Z;
  ini_chunkSize : option Z
}.

Record CompletePartRequest := mkCompletePart {
  cp_uploadId : string;
  cp_partNumber : Z;
  cp_etag : string;
  cp_size : Z
}.

Record CompleteUploadRequest := mkComplete {
  cu_uploadId : string;
  cu_parts : option (list (Z * string))   (* partNumber, etag *)
}.

Definition MiB : Z := 1024 * 1024.

(** pattern '^(image|video)\\/' *)
Definition image_or_video (contentType : string) : bool :=
  String.prefix "image/" contentType || String.prefix "video/" contentType.

Definition InitiateUploadSchema (b : InitiateUploadRequest) : bool :=
  (1 <=? Z.of_nat (String.length (ini_filename b)))
  && (Z.of_nat (String.length (ini_filename b)) <=? 255)
  && image_or_video (ini_contentType b)
  && (1 <=? ini_totalSize b) && (ini_totalSize b <=? 5 * 1024 * 1024 * 1024)
  && match ini_chunkSize b with
     | Some c => (1024 <=? c) && (c <=? 100 * 1024 * 1024)
     | None => true
     end.

Definition CompletePartSchema (b : CompletePartRequest) : bool :=
  (1 <=? Z.of_nat (String.length (cp_uploadId b)))
  && (1 <=? cp_partNumber b) && (cp_partNumber b <=? 10000)
  && (1 <=? Z.of_nat (String.length (cp_etag b)))
  && (1 <=? cp_size b).

(** ** Routes (routes/upload.ts) *)

Inductive Body :=
  | error_body (message : string)
  | success_body
  | initiate_body (uploadId s3Key : string) (uploadType : UploadType)
      (chunkSize totalChunks : Z)
  | url_body (uploadUrl : string) (expiresAt : Z)
  | complete_body (s3Key bkt : string) (uploadType : UploadType)
  | status_body (uploadId : string) (st : UploadStatus) (uploadType : UploadType)
      (uploadedParts : list UploadPart) (totalParts uploadedSize totalSize : Z)
      (progress : Q).

Record Reply := mkReply { status_code : Z; payload : Body }.

Definition send (b : Body) : Async Reply := mret (mkReply 200 b).
Definition send_error (code : Z) (message : string) : Async Reply :=
  mret (mkReply code (error_body message)).

(** The [try { ... } catch (error) { reply.status(500).send(...) }] that wraps
    every handler. *)
Definition route (failure_message : string) (handler : Async Reply) (w : World)
  : Reply * World :=
  match handler w with
  | (Resolved r, w') => (r, w')
  | (Rejected _, w') => (mkReply 500 (error_body failure_message), w')
  end.

(** [Math.ceil(a / b)] *)
Definition Math_ceil_div (a b : Z) : Z := Qceiling (inject_Z a / inject_Z b).

Definition MULTIPART_THRESHOLD : Z := 5 * 1024 * 1024.

Definition detect_upload_type (totalSize : Z) : UploadType :=
  if totalSize >=? MULTIPART_THRESHOLD then multipart else single.

(** POST /initiate.  [rnd] is the random suffix of a single upload's id and
    [rowId] the uuid of the inserted row. *)
Definition initiate (svc : S3UploadService) (env : S3Env) (now : Z)
    (rnd rowId : string) (userId : string) (b : InitiateUploadRequest)
  : World -> Reply * World :=
  route "Failed to initiate upload"
    (let chunkSize := default (10 * 1024 * 1024) (ini_chunkSize b) in
     let totalSize := ini_totalSize b in
     let uploadType := detect_upload_type totalSize in
     '(uploadId, key) ←
        (if bool_decide (uploadType = multipart)
         then initiateMultipartUpload svc env userId (ini_filename b)
                (ini_contentType b) totalSize now
         else mret ("single-" +:+ pretty now +:+ "-" +:+ rnd,
                    generateS3Key userId (ini_filename b) now));
     created ← query (createUploadRecord
                        (mkSpec userId (Some uploadId) key (tempBucket svc)
                                (ini_filename b) (ini_contentType b) totalSize
                                uploadType) rowId now);
     match created with
     | None => throw "Failed to create upload record"
     | Some (_, db') =>
         mutate (fun _ => db') ;;
         let totalChunks :=
           if bool_decide (uploadType = multipart)
           then Math_ceil_div totalSize chunkSize else 1 in
         send (initiate_body uploadId key uploadType
                 (if bool_decide (uploadType = multipart) then chunkSize
                  else totalSize)
                 totalChunks)
     end).

(** POST /url *)
Definition get_url (env : S3Env) (now : Z) (userId uploadId : string)
    (partNo : option Z) : World -> Reply * World :=
  route "Failed to generate upload URL"
    (uploadRecord ← query (getUploadRecord uploadId userId);
     match uploadRecord with
     | None => send_error 404 "Upload not found"
     | Some r =>
         if negb (bool_decide (status r = active))
         then send_error 400 "Upload is not active"
         else if bool_decide (upload_type r = multipart)
         then match partNo with
              | None => send_error 400 "Part number required for multipart upload"
              | Some n =>
                  if bool_decide (n = 0)
                  then send_error 400 "Part number required for multipart upload"
                  else send (url_body (presigned env (bucket r) (s3_key r))
                               (now + 3600000))
              end
         else send (url_body (presigned env (bucket r) (s3_key r)) (now + 3600000))
     end).

(** POST /complete-part *)
Definition complete_part (now : Z) (userId : string) (b : CompletePartRequest)
  : World -> Reply * World :=
  route "Failed to complete part"
    (uploadRecord ← query (getUploadRecord (cp_uploadId b) userId);
     match uploadRecord with
     | None => send_error 404 "Upload not found"
     | Some r =>
         if negb (bool_decide (upload_type r = multipart))
         then send_error 400 "Part completion only supported for multipart uploads"
         else
           updated ← query (updateUploadPart (cp_uploadId b) userId
                              (cp_partNumber b) (cp_etag b) (cp_size b) now);
           match updated with
           | None => throw "Upload record not found"
           | Some db' => mutate (fun _ => db') ;; send success_body
           end
     end).

(** POST /complete *)
Definition complete (env : S3Env) (now : Z) (userId : string)
    (b : CompleteUploadRequest) : World -> Reply * World :=
  let uploadId := cu_uploadId b in
  route "Failed to complete upload"
    (uploadRecord ← query (getUploadRecord uploadId userId);
     match uploadRecord with
     | None => send_error 404 "Upload not found"
     | Some r =>
         if negb (bool_decide (status r = active))
         then send_error 400 "Upload is not active"
         else
           try_catch
             (let finish : Async Reply :=
                mutate (markUploadCompleted uploadId userId None None None None
                          None now) ;;
                reply ← send (complete_body (s3_key r) (bucket r) (upload_type r));
                scheduleProcessing uploadId userId ;;
                mret reply in
              if bool_decide (upload_type r = multipart)
              then match cu_parts b with
                   | None => send_error 400 "Parts required for multipart upload"
                   | Some [] => send_error 400 "Parts required for multipart upload"
                   | Some ps =>
                       completeMultipartUpload env (bucket r) (s3_key r) uploadId ps ;;
                       finish
                   end
              else finish)
             (fun s3Error =>
                mutate (markUploadFailed uploadId userId now) ;;
                throw s3Error)
     end).

(** POST /abort *)
Definition abort (env : S3Env) (now : Z) (userId uploadId : string)
  : World -> Reply * World :=
  route "Failed to abort upload"
    (uploadRecord ← query (getUploadRecord uploadId userId);
     match uploadRecord with
     | None => send_error 404 "Upload not found"
     | Some r =>
         (if bool_decide (upload_type r = multipart)
          then abortMultipartUpload env (bucket r) (s3_key r) uploadId
          else mret tt) ;;
         mutate (markUploadAborted uploadId userId now) ;;
         send success_body
     end).

(** [parts.reduce((sum, part) => sum + part.size, 0)] *)
Definition uploaded_size (ps : list UploadPart) : Z :=
  foldl (fun sum part => sum + size part) 0 ps.

(** [Math.round(x)]: the nearest integer, halves upwards. *)
Definition Math_round (x : Q) : Z := Qfloor (x + (1 # 2))%Q.

(** GET /status; [progress] is computed over the rationals. *)
Definition upload_status_route (userId uploadId : string) : World -> Reply * World :=
  route "Failed to get upload status"
    (uploadRecord ← query (getUploadRecord uploadId userId);
     match uploadRecord with
     | None => send_error 404 "Upload not found"
     | Some r =>
         let '(uploadedSize, totalParts) :=
           if bool_decide (upload_type r = multipart)
           then (uploaded_size (parts r),
                 Math_ceil_div (total_size r) (10 * 1024 * 1024))
           else (if bool_decide (status r = completed) then total_size r else 0, 1) in
         let progress : Q :=
           if 0 <? total_size r
           then ((inject_Z uploadedSize / inject_Z (total_size r)) * inject_Z 100)%Q
           else 0%Q in
         send (status_body uploadId (status r) (upload_type r) (parts r)
                 totalParts uploadedSize (total_size r)
                 (inject_Z (Math_round (progress * inject_Z 100)) / inject_Z 100)%Q)
     end).

(** ** Part reports that interleave

    [updateUploadPart] awaits twice: the read of the record and the write of
    the recomputed array.  Between the two, other calls run.  A call is
    modelled by where it is suspended; a schedule names, step by step, the
    call that the event loop resumes. *)

Record PartReport := mkReport {
  rp_partNumber : Z;
  rp_etag : string;
  rp_size : Z;
  rp_now : Z          (* the clock of the call *)
}.

Definition part_of (rep : PartReport) : UploadPart :=
  mkPart (rp_partNumber rep) (Some (rp_etag rep)) (rp_size rep) (Some (rp_now rep)).

Inductive Call :=
  | AwaitRead (rep : PartReport)                  (* at [await getUploadRecord] *)
  | AwaitWrite (now : Z) (ps : list UploadPart)   (* holds [parts], at [await update] *)
  | Settled (ok : bool).                          (* resolved, or thrown *)

Definition step_call (uploadId userId : string) (c : Call) (db : Uploads)
  : Call * Uploads :=
  match c with
  | AwaitRead rep =>
      match getUploadRecord uploadId userId db with
      | None => (Settled false, db)
      | Some record =>
          (AwaitWrite (rp_now rep) (upsert_parts (part_of rep) (parts record)), db)
      end
  | AwaitWrite now ps =>
      (Settled true,
       update_eq uploadId userId
         (mkPatch None None (Some now) (Some ps)
                  None None None None None None None None) db)
  | Settled ok => (c, db)
  end.

Definition step (uploadId userId : string) (st : list Call * Uploads) (i : nat)
  : list Call * Uploads :=
  match st.1 !! i with
  | None => st
  | Some c =>
      let '(c', db') := step_call uploadId userId c st.2 in
      (<[i := c']> st.1, db')
  end.

Definition run_schedule (uploadId userId : string) (schedule : list nat)
    (st : list Call * Uploads) : list Call * Uploads :=
  foldl (step uploadId userId) st schedule.

(** One call run to its end without suspension in between. *)
Definition report (uploadId userId : string) (db : Uploads) (rep : PartReport)
  : Uploads :=
  default db (updateUploadPart uploadId userId (rp_partNumber rep) (rp_etag rep)
                (rp_size rep) (rp_now rep) db).

Definition report_all (uploadId userId : string) (reports : list PartReport)
    (db : Uploads) : Uploads :=
  foldl (report uploadId userId) db reports.

(** The schedule in which call [k] reads and writes, then call [k+1], ... *)
Fixpoint sequential (k n : nat) : list nat :=
  match n with
  | O => []
  | S n' => k :: k :: sequential (S k) n'
  end.

(** ** Sample data *)

Definition sample_svc : S3UploadService := mkS3 "temp" "final".

(** An object store in which every call succeeds. *)
Definition sample_env : S3Env :=
  mkEnv (Some "mp-1") (fun _ => true) true true (fun _ _ => true)
        (fun b k => b +:+ "/" +:+ k).

(** An object store that refuses the copy and nothing else. *)
Definition copy_refused_env : S3Env :=
  mkEnv (Some "mp-1") (fun _ => true) true false (fun _ _ => true)
        (fun b k => b +:+ "/" +:+ k).

Definition empty_world : World := mkWorld ∅ ∅ [].

Definition sample_part : UploadPart := mkPart 1 (Some "etag-a") 5242880 (Some 1001).

Definition sample_record (st : UploadStatus) (ps : option ProcessingStatus)
    (fin : option string) : UploadRecord :=
  {| id := "row-1"; user_id := "alice"; upload_id := "up-1";
     s3_key := "alice/1000-cat.png"; bucket := "temp"; filename := "cat.png";
     content_type := "image/png"; total_size := 10000000; status := st;
     processing_status := ps; processing_progress := Some 0;
     processing_message := None; upload_type := multipart; parts := [];
     created_at := 1000; updated_at := 1000; completed_at := None;
     final_s3_key := fin; final_bucket := fin; thumbnail_s3_key := None;
     thumbnail_url := None; thumbnail_cloudinary_url := None |}.

Definition sample_db (st : UploadStatus) (ps : option ProcessingStatus)
    (fin : option string) : Uploads :=
  {[ "up-1" := sample_record st ps fin ]}.

Definition sample_view : UploadStatusView :=
  mkView completed (Some processed) (Some 0) None true.

Definition sample_record_with (st : UploadStatus) (ps : list UploadPart) : UploadRecord :=
  {| id := "row-1"; user_id := "alice"; upload_id := "up-1";
     s3_key := "alice/1000-cat.png"; bucket := "temp"; filename := "cat.png";
     content_type := "image/png"; total_size := 10000000; status := st;
     processing_status := Some pending; processing_progress := Some 0;
     processing_message := None; upload_type := multipart; parts := ps;
     created_at := 1000; updated_at := 1000; completed_at := None;
     final_s3_key := None; final_bucket := None; thumbnail_s3_key := None;
     thumbnail_url := None; thumbnail_cloudinary_url := None |}.

Definition active_world : World :=
  mkWorld {[ "up-1" := sample_record_with active [sample_part] ]} ∅ [].

Definition completed_world : World :=
  mkWorld {[ "up-1" := sample_record_with completed [sample_part] ]}
          {[ ("temp", "alice/1000-cat.png") ]} [].

Definition sample_initiate : InitiateUploadRequest :=
  mkInitiate "cat.png" "image/png" 10000000 None.

Definition chunked_initiate : InitiateUploadRequest :=
  mkInitiate "cat.png" "image/png" 10000000 (Some (5 * 1024 * 1024)).

Definition late_report : CompletePartRequest :=
  mkCompletePart "up-1" 2 "etag-late" 4757120.

(** The scenario: initiate with totalSize = 10_000_000, report part 2 then
    part 1, complete with parts [1, 2], let the scheduled promotion run; the
    object store accepts every call. *)
Definition scenario_completed : Reply * World :=
  let w1 := (initiate sample_svc sample_env 1000 "k3x9" "row-1" "alice"
               sample_initiate empty_world).2 in
  let w2 := (complete_part 1001 "alice"
               (mkCompletePart "mp-1" 2 "etag-2" 4757120) w1).2 in
  let w3 := (complete_part 1002 "alice"
               (mkCompletePart "mp-1" 1 "etag-1" 5242880) w2).2 in
  complete sample_env 1003 "alice"
    (mkComplete "mp-1" (Some [(1, "etag-1"); (2, "etag-2")])) w3.

Definition scenario_promoted : option (Outcome ProcessingResult * World) :=
  fire_timer sample_svc sample_env 2003 scenario_completed.2.

Definition racing_reports : list PartReport :=
  [mkReport 1 "etag-1" 5242880 1001; mkReport 2 "etag-2" 4757120 1002].

Definition ten_reports : list PartReport :=
  (fun i => mkReport (Z.of_nat i) "etag" 1048576 (1000 + Z.of_nat i)) <$> seq 1 10.

(** ** More of the record store (uploadDb.ts)

    Queries that are not addressed by the UNIQUE [upload_id] go over all
    rows.  [rows_where] is a select, [update_where] an update; the order of
    the rows a select returns is the order in which the table lists them. *)

Definition rows_where (P : UploadRecord -> bool) (db : Uploads)
  : list UploadRecord :=
  filter (fun r => P r = true) (map_to_list db).*2.

Definition update_where (P : UploadRecord -> bool) (p : Patch) (db : Uploads)
  : Uploads :=
  (fun r => if P r then apply_patch p r else r) <$> db.

Definition has_key_of (s3Key userId : string) (r : UploadRecord) : bool :=
  bool_decide (s3_key r = s3Key) && bool_decide (user_id r = userId).

(** [getUploadRecordByS3Key]: [.single()] answers PGRST116 for no row and for
    several rows alike, and the service maps PGRST116 to [null]. *)
Definition getUploadRecordByS3Key (s3Key userId : string) (db : Uploads)
  : option UploadRecord :=
  match rows_where (has_key_of s3Key userId) db with
  | [r] => Some r
  | _ => None
  end.

Definition markUploadCompletedByS3Key (s3Key userId : string)
    (finalS3Key finalBucket thumbnailS3Key thumbnailUrl thumbnailCloudinaryUrl
       : option string) (now : Z) (db : Uploads) : Uploads :=
  update_where (has_key_of s3Key userId)
    (mkPatch (Some completed) (Some now) (Some now) None
             finalS3Key finalBucket thumbnailS3Key thumbnailUrl
             thumbnailCloudinaryUrl None None None) db.

Definition markUploadFailedByS3Key (s3Key userId : string) (now : Z)
    (db : Uploads) : Uploads :=
  update_where (has_key_of s3Key userId)
    (mkPatch (Some failed) None (Some now) None
             None None None None None None None None) db.


(** [.order('created_at', { ascending: false })] *)
Definition newer_first (a b : UploadRecord) : Prop := created_at b ≤ created_at a.

#[global] Instance newer_first_dec : RelDecision newer_first.
Proof. intros a b. unfold newer_first. apply _. Defined.


(** [cutoffDate.setHours(cutoffDate.getHours() - olderThanHours)], on a clock
    without daylight-saving jumps. *)
Definition cutoffDate (olderThanHours now : Z) : Z :=
  now - olderThanHours * 3600000.

Definition is_stale (cutoff : Z) (r : UploadRecord) : bool :=
  bool_decide (status r = active) && (created_at r <? cutoff).

(** [cleanupStaleUploads]: the update names [status] only; [updated_at] is
    written by the trigger [update_uploads_updated_at].  The number returned
    is the number of rows the update returns. *)
Definition cleanupStaleUploads (olderThanHours now : Z) (db : Uploads)
  : nat * Uploads :=
  let cutoff := cutoffDate olderThanHours now in
  (base.size (filter (fun kr => is_stale cutoff kr.2 = true) db),
   update_where (is_stale cutoff)
     (mkPatch (Some failed) None (Some now) None
              None None None None None None None None) db).

(** ** More routes (routes/upload.ts, routes/upload-status.ts) *)





(** What the routes of upload-status.ts answer. *)
Inductive ProcessingReply :=
  | processing_ok (v : UploadStatusView)
  | processing_error (code : Z) (message : string).

(** GET /api/v1/uploads/:uploadId/status *)
Definition processing_status_route (userId uploadId : string) (w : World)
  : ProcessingReply :=
  match getUploadStatus uploadId userId (uploads w) with
  | None => processing_error 404 "Upload not found"
  | Some v => processing_ok v
  end.

(** [response[uploadId] = status] on a plain object: the key '__proto__'
    reaches the prototype setter and creates no property of the object. *)
Definition set_property (key : string) (v : UploadStatusView)
    (response : gmap string UploadStatusView) : gmap string UploadStatusView :=
  if bool_decide (key = "__proto__") then response else <[key := v]> response.

(** POST /api/v1/uploads/status/bulk: the properties of the object sent. *)
Definition bulk_status_route (userId : string) (uploadIds : list string)
    (w : World) : gmap string UploadStatusView :=
  let results := (fun uploadId => (uploadId, getUploadStatus uploadId userId (uploads w)))
                   <$> uploadIds in
  foldl (fun response '(uploadId, st) =>
           match st with
           | Some v => set_property uploadId v response
           | None => response
           end) ∅ results.

(** An object store that refuses to complete a multipart upload. *)
Definition complete_refused_env : S3Env :=
  mkEnv (Some "mp-1") (fun _ => false) true true (fun _ _ => true)
        (fun b k => b +:+ "/" +:+ k).

(** An object store that refuses to abort. *)
Definition abort_refused_env : S3Env :=
  mkEnv (Some "mp-1") (fun _ => true) false true (fun _ _ => true)
        (fun b k => b +:+ "/" +:+ k).

(** An object store that accepts the copy and refuses to delete from the
    temp bucket. *)
Definition temp_delete_refused_env : S3Env :=
  mkEnv (Some "mp-1") (fun _ => true) true true
        (fun b _ => negb (bool_decide (b = "temp")))
        (fun b k => b +:+ "/" +:+ k).

Definition single_record : UploadRecord :=
  {| id := "row-2"; user_id := "alice"; upload_id := "single-1000-k3x9";
     s3_key := "alice/1000-dot.png"; bucket := "temp"; filename := "dot.png";
     content_type := "image/png"; total_size := 1000; status := active;
     processing_status := Some pending; processing_progress := Some 0;
     processing_message := None; upload_type := single; parts := [];
     created_at := 1000; updated_at := 1000; completed_at := None;
     final_s3_key := None; final_bucket := None; thumbnail_s3_key := None;
     thumbnail_url := None; thumbnail_cloudinary_url := None |}.

Definition single_world : World :=
  mkWorld {[ "single-1000-k3x9" := single_record ]} ∅ [].

(** ** Invariants of interleaved part reports

    [origin] says where a stored part may come from. *)

(** What holds of the table and of the suspended calls at every step. *)
Definition parts_ok (origin : UploadPart -> Prop) (ps : list UploadPart) : Prop :=
  NoDup (partNumber <$> ps) /\ forall p, p ∈ ps -> origin p.

Definition call_ok (origin : UploadPart -> Prop) (c : Call) : Prop :=
  match c with
  | AwaitRead rep => origin (part_of rep)
  | AwaitWrite _ ps => parts_ok origin ps
  | Settled _ => True
  end.

Definition pool_ok (uploadId userId : string) (origin : UploadPart -> Prop)
    (st : list Call * Uploads) : Prop :=
  Forall (call_ok origin) st.1
  /\ forall r, getUploadRecord uploadId userId st.2 = Some r ->
               parts_ok origin (parts r).

(** POST /complete from its first suspension on: what the handler does
    once [await uploadDbService.getUploadRecord(...)] has resolved with
    [uploadRecord]. *)
Definition complete_resumed (env : S3Env) (now : Z) (userId : string)
    (b : CompleteUploadRequest) (uploadRecord : option UploadRecord)
  : World -> Reply * World :=
  let uploadId := cu_uploadId b in
  route "Failed to complete upload"
    (match uploadRecord with
     | None => send_error 404 "Upload not found"
     | Some r =>
         if negb (bool_decide (status r = active))
         then send_error 400 "Upload is not active"
         else
           try_catch
             (let finish : Async Reply :=
                mutate (markUploadCompleted uploadId userId None None None None
                          None now) ;;
                reply ← send (complete_body (s3_key r) (bucket r) (upload_type r));
                scheduleProcessing uploadId userId ;;
                mret reply in
              if bool_decide (upload_type r = multipart)
              then match cu_parts b with
                   | None => send_error 400 "Parts required for multipart upload"
                   | Some [] => send_error 400 "Parts required for multipart upload"
                   | Some ps =>
                       completeMultipartUpload env (bucket r) (s3_key r) uploadId ps ;;
                       finish
                   end
              else finish)
             (fun s3Error =>
                mutate (markUploadFailed uploadId userId now) ;;
                throw s3Error)
     end).

(** A table with two uploads of one owner. *)
Definition two_uploads_world : World :=
  mkWorld {[ "up-1" := sample_record_with active [sample_part];
             "single-1000-k3x9" := single_record ]} ∅ [].

(** An object store that accepts a completion exactly when the part list it
    is handed is in ascending order of part number. *)
Definition ascending_only_env : S3Env :=
  mkEnv (Some "mp-1") (fun ps => bool_decide (Sorted part_le ps)) true true
        (fun _ _ => true) (fun b k => b +:+ "/" +:+ k).

(** * Properties *)

(** ** The record store *)

Section Store.
Implicit Types (db : Uploads) (r : UploadRecord) (p : Patch).

Lemma getUploadRecord_Some uploadId userId db r :
  getUploadRecord uploadId userId db = Some r ->
  db !! uploadId = Some r /\ user_id r = userId.
Proof.
  unfold getUploadRecord. destruct (db !! uploadId) as [r0|]; [|done].
  case_bool_decide; [|done]. intros [= ->]. done.
Qed.

Lemma getUploadRecord_intro uploadId userId db r :
  db !! uploadId = Some r -> user_id r = userId ->
  getUploadRecord uploadId userId db = Some r.
Proof.
  intros Hl Hu. unfold getUploadRecord. rewrite Hl.
  by rewrite bool_decide_eq_true_2.
Qed.

Lemma user_id_apply_patch p r : user_id (apply_patch p r) = user_id r.
Proof. reflexivity. Qed.

(** An update is read back by the query that selected its row. *)
Lemma getUploadRecord_update_eq uploadId userId p db r :
  getUploadRecord uploadId userId db = Some r ->
  getUploadRecord uploadId userId (update_eq uploadId userId p db)
  = Some (apply_patch p r).
Proof.
  intros H. unfold update_eq. rewrite H.
  apply getUploadRecord_Some in H as [_ Hu].
  apply getUploadRecord_intro; [apply lookup_insert_eq | done].
Qed.

(** An update that matches no row changes nothing. *)
Lemma update_eq_no_row uploadId userId p db :
  getUploadRecord uploadId userId db = None ->
  update_eq uploadId userId p db = db.
Proof. intros H. unfold update_eq. by rewrite H. Qed.

(** Rows of other uploads are not touched. *)
Lemma update_eq_other uploadId userId p db other :
  other ≠ uploadId ->
  update_eq uploadId userId p db !! other = db !! other.
Proof.
  intros Hne. unfold update_eq.
  destruct (getUploadRecord uploadId userId db); [|done].
  by rewrite lookup_insert_ne.
Qed.
End Store.

(** ** C3: the readiness predicate *)

Lemma ready_expr_spec (r : UploadRecord) :
  ready_expr r = true <->
  status r = completed
  /\ (processing_status r = Some processed \/ processing_status r = None)
  /\ final_s3_key r <> None.
Proof.
  unfold ready_expr.
  rewrite !andb_true_iff, orb_true_iff, negb_true_iff,
    !bool_decide_eq_true, bool_decide_eq_false.
  tauto.
Qed.

(** C3.  Whenever the status facade answers for an upload, the answer is the
    view of the owner's record, and its [ready_for_display] is true exactly
    when the record is completed, its processing status is processed or null,
    and its final key is set; with the final key unset it is false whatever
    the status. *)
Theorem ready_for_display_iff (uploadId userId : string) (db : Uploads)
    (v : UploadStatusView) :
  getUploadStatus uploadId userId db = Some v ->
  exists r,
    getUploadRecord uploadId userId db = Some r
    /\ upload_status v = status r
    /\ (ready_for_display v = true <->
        status r = completed
        /\ (processing_status r = Some processed \/ processing_status r = None)
        /\ final_s3_key r <> None)
    /\ (final_s3_key r = None -> ready_for_display v = false).
Proof.
  unfold getUploadStatus.
  destruct (getUploadRecord uploadId userId db) as [r|] eqn:Hr; [|done].
  intros [= <-]. exists r. cbn [upload_status ready_for_display].
  split; [done|]. split; [done|]. split; [apply ready_expr_spec|].
  intros Hnone. apply not_true_is_false. rewrite ready_expr_spec. tauto.
Qed.

Lemma ready_for_display_iff_witness :
  let db := sample_db completed (Some processed) (Some "alice/1000-cat.png") in
  getUploadStatus "up-1" "alice" db = Some sample_view
  /\ exists r,
       getUploadRecord "up-1" "alice" db = Some r
       /\ upload_status sample_view = status r
       /\ (ready_for_display sample_view = true <->
           status r = completed
           /\ (processing_status r = Some processed \/ processing_status r = None)
           /\ final_s3_key r <> None)
       /\ (final_s3_key r = None -> ready_for_display sample_view = false).
Proof.
  split; [reflexivity|].
  apply (ready_for_display_iff "up-1" "alice"). reflexivity.
Defined.

(** ** C8: single or multipart *)

Lemma detect_upload_type_multipart (totalSize : Z) :
  detect_upload_type totalSize = multipart <-> 5 * 1024 * 1024 <= totalSize.
Proof.
  unfold detect_upload_type, MULTIPART_THRESHOLD.
  destruct (Z.geb_spec totalSize (5 * 1024 * 1024)); split; (done || lia).
Qed.

Lemma detect_upload_type_single (totalSize : Z) :
  detect_upload_type totalSize = single <-> totalSize < 5 * 1024 * 1024.
Proof.
  unfold detect_upload_type, MULTIPART_THRESHOLD.
  destruct (Z.geb_spec totalSize (5 * 1024 * 1024)); split; (done || lia).
Qed.

(** What [createUploadRecord] inserts. *)
Lemma createUploadRecord_Some sp u rowId now (db : Uploads) i db' :
  sp_uploadId sp = Some u -> u ≠ "" ->
  createUploadRecord sp rowId now db = Some (i, db') ->
  exists r,
    getUploadRecord u (sp_userId sp) db' = Some r
    /\ status r = active /\ upload_type r = sp_uploadType sp
    /\ total_size r = sp_totalSize sp /\ parts r = []
    /\ processing_status r = Some pending /\ final_s3_key r = None
    /\ s3_key r = sp_s3Key sp /\ bucket r = sp_bucket sp.
Proof.
  intros Hu Hne. unfold createUploadRecord. rewrite Hu.
  cbn [upload_id_or_single]. rewrite (bool_decide_eq_false_2 (u = "")) by done.
  destruct (db !! u); [done|]. intros [= <- <-].
  eexists. split;
    [apply getUploadRecord_intro; [apply lookup_insert_eq|done]|done].
Qed.

Lemma single_id_nonempty (now : Z) (rnd : string) : "single-" +:+ pretty now +:+ "-" +:+ rnd ≠ "".
Proof. done. Qed.

(** The only 200 of POST /initiate: the record has been inserted as an active
    upload of the detected kind and the body reports that kind. *)
Lemma initiate_200 svc env now rnd rowId userId b w reply w' :
  initiate svc env now rnd rowId userId b w = (reply, w') ->
  status_code reply = 200 ->
  exists uploadId key,
    let uploadType := detect_upload_type (ini_totalSize b) in
    let chunkSize := default (10 * 1024 * 1024) (ini_chunkSize b) in
    payload reply
    = initiate_body uploadId key uploadType
        (if bool_decide (uploadType = multipart) then chunkSize
         else ini_totalSize b)
        (if bool_decide (uploadType = multipart)
         then Math_ceil_div (ini_totalSize b) chunkSize else 1)
    /\ exists r,
         getUploadRecord uploadId userId (uploads w') = Some r
         /\ status r = active /\ upload_type r = uploadType
         /\ total_size r = ini_totalSize b /\ parts r = [].
Proof.
  unfold initiate, route. cbn zeta.
  set (ut := detect_upload_type (ini_totalSize b)).
  unfold mbind, Async_bind, initiateMultipartUpload, query, mutate, send, throw,
    mret, Async_ret.
  case_bool_decide as Hut.
  - destruct (create_answer env) as [u|]; [|by intros [= <- _]].
    case_bool_decide as Hu; [by intros [= <- _]|].
    destruct (createUploadRecord _ _ _ _) as [[i db']|] eqn:Hc;
      [|by intros [= <- _]].
    intros [= <- <-] _. eexists u, _. split; [reflexivity|].
    apply (createUploadRecord_Some _ u) in Hc as (r & Hr & ? & ? & ? & ? & _);
      [|done..].
    by exists r.
  - destruct (createUploadRecord _ _ _ _) as [[i db']|] eqn:Hc;
      [|by intros [= <- _]].
    intros [= <- <-] _. eexists _, _. split; [reflexivity|].
    eapply createUploadRecord_Some in Hc as (r & Hr & ? & ? & ? & ? & _);
      [|reflexivity|apply single_id_nonempty].
    by exists r.
Qed.

(** C8.  For every body that passes the initiate schema, a 200 reply reports
    multipart exactly when totalSize is at least 5 * 1024 * 1024 bytes and
    single exactly when it is below, and the record that was inserted has
    that upload type. *)
Theorem initiate_multipart_iff_5MiB svc env now rnd rowId userId b w reply w' :
  InitiateUploadSchema b = true ->
  initiate svc env now rnd rowId userId b w = (reply, w') ->
  status_code reply = 200 ->
  exists uploadId key uploadType chunkSize totalChunks r,
    payload reply = initiate_body uploadId key uploadType chunkSize totalChunks
    /\ getUploadRecord uploadId userId (uploads w') = Some r
    /\ upload_type r = uploadType
    /\ (uploadType = multipart <-> 5 * 1024 * 1024 <= ini_totalSize b)
    /\ (uploadType = single <-> ini_totalSize b < 5 * 1024 * 1024).
Proof.
  intros _ Hrun Hok.
  destruct (initiate_200 _ _ _ _ _ _ _ _ _ _ Hrun Hok)
    as (uploadId & key & Hbody & r & Hr & _ & Hty & _).
  exists uploadId, key, (detect_upload_type (ini_totalSize b)).
  eexists _, _, r. split; [exact Hbody|]. split; [exact Hr|]. split; [exact Hty|].
  split; [apply detect_upload_type_multipart|apply detect_upload_type_single].
Qed.

Lemma initiate_multipart_iff_5MiB_witness :
  let run := initiate sample_svc sample_env 1000 "k3x9" "row-1" "alice"
               sample_initiate empty_world in
  InitiateUploadSchema sample_initiate = true
  /\ status_code run.1 = 200
  /\ exists uploadId key uploadType chunkSize totalChunks r,
       payload run.1 = initiate_body uploadId key uploadType chunkSize totalChunks
       /\ getUploadRecord uploadId "alice" (uploads run.2) = Some r
       /\ upload_type r = uploadType
       /\ (uploadType = multipart <-> 5 * 1024 * 1024 <= ini_totalSize sample_initiate)
       /\ (uploadType = single <-> ini_totalSize sample_initiate < 5 * 1024 * 1024).
Proof.
  intros run. split; [reflexivity|]. split; [reflexivity|].
  apply (initiate_multipart_iff_5MiB sample_svc sample_env 1000 "k3x9" "row-1"
           "alice" sample_initiate empty_world run.1 run.2);
    [reflexivity | apply surjective_pairing | reflexivity].
Defined.

(** ** C10: totalParts of GET /status against totalChunks of POST /initiate *)

(** [Math.ceil(a / b)] in integer arithmetic. *)
Lemma Math_ceil_div_Z (a b : Z) : 0 < b -> Math_ceil_div a b = (a + b - 1) / b.
Proof.
  intros Hb. destruct b as [|p|p]; [lia| |lia].
  unfold Math_ceil_div, Qceiling, Qfloor, Qdiv, Qinv, Qmult, Qopp, inject_Z.
  cbn [Qnum Qden]. rewrite Z.mul_1_r, Pos.mul_1_l.
  apply (Z.div_unique_pos _ _ _ (Z.pos p - 1 - (- a) mod Z.pos p)).
  - pose proof (Z.mod_pos_bound (- a) (Z.pos p)). lia.
  - pose proof (Z.div_mod (- a) (Z.pos p)). lia.
Qed.

(** GET /status on a multipart record divides by 10 MiB, whatever the record. *)
Lemma status_route_multipart userId uploadId w r :
  getUploadRecord uploadId userId (uploads w) = Some r ->
  upload_type r = multipart ->
  exists progress,
    upload_status_route userId uploadId w
    = (mkReply 200
         (status_body uploadId (status r) multipart (parts r)
            (Math_ceil_div (total_size r) (10 * 1024 * 1024))
            (uploaded_size (parts r)) (total_size r) progress), w).
Proof.
  intros Hr Hmp. unfold upload_status_route, route, mbind, Async_bind, query.
  rewrite Hr, Hmp. cbn. eexists. reflexivity.
Qed.

(** A chunk size other than 10 MiB has a file size on which the two ceilings
    disagree. *)
Lemma ceilings_disagree (c : Z) :
  1024 <= c <= 100 * 1024 * 1024 -> c <> 10 * 1024 * 1024 ->
  exists totalSize,
    5 * 1024 * 1024 <= totalSize <= 5 * 1024 * 1024 * 1024
    /\ Math_ceil_div totalSize c <> Math_ceil_div totalSize (10 * 1024 * 1024).
Proof.
  intros Hc Hne. destruct (Z_lt_ge_dec c (10 * 1024 * 1024)) as [Hlt|Hge].
  - exists (10 * 1024 * 1024). split; [lia|].
    rewrite !Math_ceil_div_Z by lia.
    assert (2 <= (10 * 1024 * 1024 + c - 1) / c)
      by (apply Z.div_le_lower_bound; lia).
    assert ((10 * 1024 * 1024 + 10 * 1024 * 1024 - 1) / (10 * 1024 * 1024) = 1)
      by reflexivity.
    lia.
  - exists c. split; [lia|].
    rewrite !Math_ceil_div_Z by lia.
    assert ((c + c - 1) / c = 1)
      by (symmetry; apply (Z.div_unique_pos _ _ _ (c - 1)); lia).
    assert (2 <= (c + 10 * 1024 * 1024 - 1) / (10 * 1024 * 1024))
      by (apply Z.div_le_lower_bound; lia).
    lia.
Qed.

(** C10.  After a successful multipart initiate, the body carries
    totalChunks = ceil(totalSize / chunkSize) for the client's chunkSize
    (10 MiB when absent), while GET /status on the same upload reports
    totalParts = ceil(totalSize / 10 MiB): the chunk size is not consulted.
    The two agree when chunkSize is 10 MiB, and every other admissible
    chunkSize has an admissible totalSize on which they differ. *)
Theorem status_total_parts_ignores_chunk_size
    svc env now rnd rowId userId b w uploadId key chunkSize totalChunks w' :
  InitiateUploadSchema b = true ->
  initiate svc env now rnd rowId userId b w
  = (mkReply 200 (initiate_body uploadId key multipart chunkSize totalChunks), w') ->
  chunkSize = default (10 * 1024 * 1024) (ini_chunkSize b)
  /\ totalChunks = Math_ceil_div (ini_totalSize b) chunkSize
  /\ (exists progress,
        upload_status_route userId uploadId w'
        = (mkReply 200
             (status_body uploadId active multipart []
                (Math_ceil_div (ini_totalSize b) (10 * 1024 * 1024))
                0 (ini_totalSize b) progress), w'))
  /\ Math_ceil_div (ini_totalSize b) (10 * 1024 * 1024)
     = (ini_totalSize b + 10 * 1024 * 1024 - 1) / (10 * 1024 * 1024)
  /\ (forall c, 1024 <= c <= 100 * 1024 * 1024 -> c <> 10 * 1024 * 1024 ->
        exists totalSize,
          5 * 1024 * 1024 <= totalSize <= 5 * 1024 * 1024 * 1024
          /\ Math_ceil_div totalSize c
             <> Math_ceil_div totalSize (10 * 1024 * 1024)).
Proof.
  intros _ Hrun.
  destruct (initiate_200 _ _ _ _ _ _ _ _ _ _ Hrun eq_refl)
    as (uploadId' & key' & Hbody & r & Hr & Hact & Hty & Hsz & Hps).
  cbn [payload] in Hbody. cbn zeta in *.
  injection Hbody as -> -> Hty' -> ->. rewrite <- Hty' in *.
  rewrite bool_decide_eq_true_2 by done.
  split; [done|]. split; [done|]. split.
  - destruct (status_route_multipart userId uploadId' w' r Hr Hty) as [q Hq].
    exists q. rewrite Hq, Hact, Hps, Hsz. reflexivity.
  - split; [by apply Math_ceil_div_Z | apply ceilings_disagree].
Qed.

Lemma status_total_parts_ignores_chunk_size_witness :
  let run := initiate sample_svc sample_env 1000 "k3x9" "row-1" "alice"
               chunked_initiate empty_world in
  InitiateUploadSchema chunked_initiate = true
  /\ run.1 = mkReply 200
               (initiate_body "mp-1" "alice/1000-cat.png" multipart 5242880 2)
  /\ exists progress,
       upload_status_route "alice" "mp-1" run.2
       = (mkReply 200
            (status_body "mp-1" active multipart [] 1 0 10000000 progress), run.2).
Proof.
  intros run. split; [reflexivity|]. split; [reflexivity|].
  destruct (status_total_parts_ignores_chunk_size sample_svc sample_env 1000
              "k3x9" "row-1" "alice" chunked_initiate empty_world "mp-1"
              "alice/1000-cat.png" 5242880 2 run.2 eq_refl eq_refl)
    as (_ & _ & H & _).
  exact H.
Defined.

(** ** C5: a part report replaces or appends *)

Section Parts.
Implicit Types (p np : UploadPart) (ps : list UploadPart) (n : Z).

(** [upsert_parts] as a recursion on the stored array. *)
Lemma upsert_parts_cons np p ps :
  upsert_parts np (p :: ps)
  = if bool_decide (partNumber p = partNumber np) then np :: ps
    else p :: upsert_parts np ps.
Proof.
  unfold upsert_parts. cbn [findIndex]. case_bool_decide; [done|].
  by destruct (findIndex (partNumber np) ps).
Qed.

Lemma upsert_parts_nil np : upsert_parts np [] = [np].
Proof. reflexivity. Qed.

Lemma findIndex_None n ps : findIndex n ps = None <-> n ∉ partNumber <$> ps.
Proof.
  induction ps as [|p ps IH]; cbn.
  - split; [intros _; apply not_elem_of_nil|done].
  - rewrite not_elem_of_cons. case_bool_decide as Hp.
    + split; [done|]. intros [Hne _]. congruence.
    + rewrite fmap_None, IH. split; [intros ?; split; [congruence|done]|tauto].
Qed.

Lemma upsert_parts_absent np ps :
  partNumber np ∉ partNumber <$> ps -> upsert_parts np ps = ps ++ [np].
Proof.
  intros H. apply findIndex_None in H. unfold upsert_parts. by rewrite H.
Qed.

Lemma upsert_parts_present_length np ps :
  partNumber np ∈ partNumber <$> ps ->
  length (upsert_parts np ps) = length ps.
Proof.
  induction ps as [|p ps IH]; [by intros ?%elem_of_nil|].
  rewrite upsert_parts_cons. case_bool_decide as Hp; [done|].
  rewrite fmap_cons, elem_of_cons. intros [Heq|Hin]; [congruence|].
  cbn. by rewrite IH.
Qed.

(** The part numbers stored do not change when one of them is re-reported. *)
Lemma upsert_parts_numbers np ps :
  partNumber <$> upsert_parts np ps
  = if bool_decide (partNumber np ∈ partNumber <$> ps) then partNumber <$> ps
    else (partNumber <$> ps) ++ [partNumber np].
Proof.
  induction ps as [|p ps IH].
  - rewrite bool_decide_eq_false_2 by apply not_elem_of_nil. done.
  - rewrite upsert_parts_cons, !fmap_cons.
    destruct (decide (partNumber p = partNumber np)) as [Heq|Hne].
    + rewrite (bool_decide_eq_true_2 _ Heq), fmap_cons, Heq.
      by rewrite bool_decide_eq_true_2 by left.
    + rewrite (bool_decide_eq_false_2 _ Hne), fmap_cons, IH.
      destruct (decide (partNumber np ∈ partNumber <$> ps)) as [Hin|Hin].
      * rewrite (bool_decide_eq_true_2 _ Hin).
        by rewrite bool_decide_eq_true_2 by (by right).
      * rewrite (bool_decide_eq_false_2 _ Hin).
        rewrite bool_decide_eq_false_2; [done|].
        rewrite not_elem_of_cons. split; [congruence|done].
Qed.

(** Distinct part numbers is an invariant of the stored array. *)
Lemma upsert_parts_NoDup np ps :
  NoDup (partNumber <$> ps) -> NoDup (partNumber <$> upsert_parts np ps).
Proof.
  intros Hnd. rewrite upsert_parts_numbers. case_bool_decide as Hin; [done|].
  apply NoDup_app. split; [done|]. split; [|apply NoDup_singleton].
  intros x Hx ->%list_elem_of_singleton. done.
Qed.

Lemma upsert_parts_elem np ps : np ∈ upsert_parts np ps.
Proof.
  induction ps as [|p ps IH]; [by left|].
  rewrite upsert_parts_cons. case_bool_decide; [left|by right].
Qed.

(** The entries of other part numbers are kept, in their order. *)
Lemma upsert_parts_others np ps :
  filter (fun p => partNumber p ≠ partNumber np) (upsert_parts np ps)
  = filter (fun p => partNumber p ≠ partNumber np) ps.
Proof.
  induction ps as [|p ps IH].
  - rewrite upsert_parts_nil. by rewrite filter_cons_False by (by intros ?).
  - rewrite upsert_parts_cons. case_bool_decide as Hp.
    + rewrite !filter_cons_False; [done|by intros ?..].
    + by rewrite !filter_cons_True, IH by done.
Qed.

(** With distinct part numbers, the entries of one number are one entry. *)
Lemma filter_number_singleton p ps :
  NoDup (partNumber <$> ps) -> p ∈ ps ->
  filter (fun q => partNumber q = partNumber p) ps = [p].
Proof.
  induction ps as [|q ps IH]; [by intros _ ?%elem_of_nil|].
  rewrite fmap_cons, NoDup_cons. intros [Hq Hnd].
  assert (Hfresh : forall x, partNumber x = partNumber q ->
            filter (fun y => partNumber y = partNumber x) ps = []).
  { intros x Hx. apply elem_of_nil_inv. intros y [Heq Hy]%list_elem_of_filter.
    apply Hq. rewrite <- Hx, <- Heq. by apply list_elem_of_fmap_2. }
  rewrite elem_of_cons. intros [->|Hin].
  - rewrite filter_cons_True by done. by rewrite Hfresh.
  - rewrite filter_cons_False; [by apply IH|].
    intros Heq. apply Hq. rewrite Heq. by apply list_elem_of_fmap_2.
Qed.
End Parts.

(** What [updateUploadPart] stores for an upload that exists. *)
Lemma updateUploadPart_Some uploadId userId partNo tag sz now (db : Uploads) r :
  getUploadRecord uploadId userId db = Some r ->
  exists db' r',
    updateUploadPart uploadId userId partNo tag sz now db = Some db'
    /\ getUploadRecord uploadId userId db' = Some r'
    /\ parts r' = upsert_parts (mkPart partNo (Some tag) sz (Some now)) (parts r)
    /\ status r' = status r /\ upload_type r' = upload_type r
    /\ (forall other, other ≠ uploadId -> db' !! other = db !! other).
Proof.
  intros Hr. unfold updateUploadPart. rewrite Hr.
  eexists _, _. split; [reflexivity|].
  split; [by apply getUploadRecord_update_eq|].
  split; [reflexivity|]. split; [reflexivity|]. split; [reflexivity|].
  intros other Hne. by apply update_eq_other.
Qed.

(** C5.  On a record whose stored parts have distinct part numbers (every
    array built by part reports from the empty one has), a part report
    succeeds and leaves exactly one entry for the reported part number, the
    one just reported; the entries of the other part numbers are kept; the
    part numbers stay distinct.  A number already present keeps the length
    of the array (replacement, no duplicate); a new number appends one
    entry at the end. *)
Theorem part_report_replaces_or_appends
    uploadId userId partNo tag sz now (db : Uploads) r :
  getUploadRecord uploadId userId db = Some r ->
  NoDup (partNumber <$> parts r) ->
  let newPart := mkPart partNo (Some tag) sz (Some now) in
  exists db' r',
    updateUploadPart uploadId userId partNo tag sz now db = Some db'
    /\ getUploadRecord uploadId userId db' = Some r'
    /\ filter (fun p => partNumber p = partNo) (parts r') = [newPart]
    /\ filter (fun p => partNumber p ≠ partNo) (parts r')
       = filter (fun p => partNumber p ≠ partNo) (parts r)
    /\ NoDup (partNumber <$> parts r')
    /\ (partNo ∈ partNumber <$> parts r -> length (parts r') = length (parts r))
    /\ (partNo ∉ partNumber <$> parts r -> parts r' = parts r ++ [newPart]).
Proof.
  intros Hr Hnd newPart.
  destruct (updateUploadPart_Some uploadId userId partNo tag sz now db r Hr)
    as (db' & r' & Hup & Hr' & Hps & _).
  fold newPart in Hps. exists db', r'. rewrite Hps.
  split; [done|]. split; [done|]. split.
  { apply (filter_number_singleton newPart);
      [by apply upsert_parts_NoDup | apply upsert_parts_elem]. }
  split; [apply (upsert_parts_others newPart)|].
  split; [by apply upsert_parts_NoDup|].
  split; [apply (upsert_parts_present_length newPart)
         |apply (upsert_parts_absent newPart)].
Qed.

(** The parts of a record reached by part reports from a new record have
    distinct part numbers. *)
Lemma reports_NoDup (reports : list UploadPart) :
  NoDup (partNumber <$> foldl (fun ps np => upsert_parts np ps) [] reports).
Proof.
  assert (H : forall ps, NoDup (partNumber <$> ps) ->
            NoDup (partNumber <$> foldl (fun ps np => upsert_parts np ps) ps reports)).
  { induction reports as [|np reports IH]; [done|].
    intros ps Hps. cbn. apply IH. by apply upsert_parts_NoDup. }
  apply H. constructor.
Qed.

Lemma part_report_replaces_or_appends_witness :
  let r := sample_record_with active [sample_part] in
  let db : Uploads := {[ "up-1" := r ]} in
  let newPart := mkPart 1 (Some "etag-b") 7 (Some 1002) in
  getUploadRecord "up-1" "alice" db = Some r
  /\ NoDup (partNumber <$> parts r)
  /\ exists db' r',
       updateUploadPart "up-1" "alice" 1 "etag-b" 7 1002 db = Some db'
       /\ getUploadRecord "up-1" "alice" db' = Some r'
       /\ filter (fun p => partNumber p = 1) (parts r') = [newPart]
       /\ filter (fun p => partNumber p ≠ 1) (parts r')
          = filter (fun p => partNumber p ≠ 1) (parts r)
       /\ NoDup (partNumber <$> parts r')
       /\ (1 ∈ partNumber <$> parts r -> length (parts r') = length (parts r))
       /\ (1 ∉ partNumber <$> parts r -> parts r' = parts r ++ [newPart]).
Proof.
  intros r db newPart.
  assert (Hr : getUploadRecord "up-1" "alice" db = Some r) by reflexivity.
  assert (Hnd : NoDup (partNumber <$> parts r))
    by (apply NoDup_singleton).
  split; [exact Hr|]. split; [exact Hnd|].
  exact (part_report_replaces_or_appends "up-1" "alice" 1 "etag-b" 7 1002 db r
           Hr Hnd).
Defined.

(** ** C4: completing twice *)

Ltac unfold_async :=
  unfold route, try_catch, mbind, Async_bind, mret, Async_ret, query, mutate,
    send, send_error, throw, scheduleProcessing, completeMultipartUpload,
    abortMultipartUpload, copyObject, deleteObject, put_object, drop_object in *.

(** A request on an upload that is not active: POST /complete answers 400 and
    writes nothing. *)
Lemma complete_not_active env now userId b w r :
  getUploadRecord (cu_uploadId b) userId (uploads w) = Some r ->
  status r ≠ active ->
  complete env now userId b w = (mkReply 400 (error_body "Upload is not active"), w).
Proof.
  intros Hr Hst. unfold complete. unfold_async. rewrite Hr.
  by rewrite bool_decide_eq_false_2.
Qed.

(** The only 200 of POST /complete: the record was active, is now completed,
    and one promotion has been scheduled. *)
Lemma complete_200 env now userId b w reply w' :
  complete env now userId b w = (reply, w') ->
  status_code reply = 200 ->
  exists r,
    getUploadRecord (cu_uploadId b) userId (uploads w) = Some r
    /\ status r = active
    /\ reply = mkReply 200 (complete_body (s3_key r) (bucket r) (upload_type r))
    /\ uploads w'
       = markUploadCompleted (cu_uploadId b) userId None None None None None now
           (uploads w)
    /\ timers w' = timers w ++ [(cu_uploadId b, userId)].
Proof.
  unfold complete. unfold_async.
  destruct (getUploadRecord _ _ _) as [r|] eqn:Hr; [|by intros [= <- _]].
  case_bool_decide as Hst; [|by intros [= <- _]]. cbn [negb].
  intros Hrun Hok. exists r. split; [done|]. split; [done|].
  case_bool_decide as Hmp.
  - destruct (cu_parts b) as [[|p ps]|]; [by simplify_eq/=| |by simplify_eq/=].
    destruct (complete_ok env _); by simplify_eq/=.
  - by simplify_eq/=.
Qed.

Lemma status_after_markUploadCompleted uploadId userId f b t u c now (db : Uploads) r :
  getUploadRecord uploadId userId db = Some r ->
  exists r',
    getUploadRecord uploadId userId
      (markUploadCompleted uploadId userId f b t u c now db) = Some r'
    /\ status r' = completed /\ completed_at r' = Some now
    /\ final_s3_key r' = set_null_col f (final_s3_key r)
    /\ final_bucket r' = set_null_col b (final_bucket r)
    /\ processing_status r' = processing_status r
    /\ parts r' = parts r.
Proof.
  intros Hr. eexists. split; [by apply getUploadRecord_update_eq|done].
Qed.

(** C4, amended.  When POST /complete has answered 200 for an upload, the
    record is completed, and a POST /complete of the same owner for the same
    uploadId that starts after that answer (whatever its part list, whatever
    the object store would answer) is answered 400 'Upload is not active'
    and changes nothing: no column of any record, no object, no scheduled
    promotion. *)
Theorem second_complete_is_not_active
    env1 env2 now1 now2 userId b1 b2 w reply1 w1 :
  cu_uploadId b2 = cu_uploadId b1 ->
  complete env1 now1 userId b1 w = (reply1, w1) ->
  status_code reply1 = 200 ->
  (exists r1,
     getUploadRecord (cu_uploadId b1) userId (uploads w1) = Some r1
     /\ status r1 = completed /\ completed_at r1 = Some now1)
  /\ complete env2 now2 userId b2 w1
     = (mkReply 400 (error_body "Upload is not active"), w1).
Proof.
  intros Hid Hrun Hok.
  destruct (complete_200 _ _ _ _ _ _ _ Hrun Hok) as (r & Hr & _ & _ & Hdb & _).
  destruct (status_after_markUploadCompleted (cu_uploadId b1) userId
              None None None None None now1 (uploads w) r Hr)
    as (r1 & Hr1 & Hst & Hat & _).
  rewrite <- Hdb in Hr1. split; [by exists r1|].
  apply (complete_not_active env2 now2 userId b2 w1 r1).
  - by rewrite Hid.
  - by rewrite Hst.
Qed.

Lemma second_complete_is_not_active_witness :
  let b := mkComplete "up-1" (Some [(1, "etag-a")]) in
  let run := complete sample_env 2000 "alice" b active_world in
  status_code run.1 = 200
  /\ (exists r1,
        getUploadRecord "up-1" "alice" (uploads run.2) = Some r1
        /\ status r1 = completed /\ completed_at r1 = Some 2000)
  /\ complete sample_env 3000 "alice" (mkComplete "up-1" None) run.2
     = (mkReply 400 (error_body "Upload is not active"), run.2).
Proof.
  intros b run. split; [reflexivity|].
  apply (second_complete_is_not_active sample_env sample_env 2000 3000 "alice"
           b (mkComplete "up-1" None) active_world run.1 run.2);
    [reflexivity | apply surjective_pairing | reflexivity].
Defined.

(** The handler is its read followed by the rest. *)
Lemma complete_read_then_resumed env now userId b w :
  complete env now userId b w
  = complete_resumed env now userId b
      (getUploadRecord (cu_uploadId b) userId (uploads w)) w.
Proof.
  unfold complete, complete_resumed, route, mbind, Async_bind, query.
  reflexivity.
Qed.

(** C4, as stated, fails when the two calls race: both handlers read the
    record while it is active, then the first runs to its end, then the
    second.  For a single-part upload the second call is answered 200 as
    well, rewrites the completion time and registers a second promotion.
    For a multipart upload whose second completion the object store refuses,
    the second call is answered 500 and the completed record becomes
    failed. *)
Lemma racing_complete_is_not_rejected :
  (let b := mkComplete "single-1000-k3x9" None in
   let seen := getUploadRecord "single-1000-k3x9" "alice" (uploads single_world) in
   let first := complete_resumed sample_env 2000 "alice" b seen single_world in
   let second := complete_resumed sample_env 2001 "alice" b seen first.2 in
   first.1 = mkReply 200 (complete_body "alice/1000-dot.png" "temp" single)
   /\ (fun r => (status r, completed_at r))
      <$> getUploadRecord "single-1000-k3x9" "alice" (uploads first.2)
      = Some (completed, Some 2000)
   /\ second.1 = mkReply 200 (complete_body "alice/1000-dot.png" "temp" single)
   /\ (fun r => (status r, completed_at r))
      <$> getUploadRecord "single-1000-k3x9" "alice" (uploads second.2)
      = Some (completed, Some 2001)
   /\ timers second.2
      = [("single-1000-k3x9", "alice"); ("single-1000-k3x9", "alice")])
  /\ (let b := mkComplete "up-1" (Some [(1, "etag-a")]) in
      let seen := getUploadRecord "up-1" "alice" (uploads active_world) in
      let first := complete_resumed sample_env 2000 "alice" b seen active_world in
      let second := complete_resumed complete_refused_env 2001 "alice" b seen first.2 in
      first.1 = mkReply 200 (complete_body "alice/1000-cat.png" "temp" multipart)
      /\ status <$> getUploadRecord "up-1" "alice" (uploads first.2)
         = Some completed
      /\ second.1 = mkReply 500 (error_body "Failed to complete upload")
      /\ status <$> getUploadRecord "up-1" "alice" (uploads second.2)
         = Some failed).
Proof. repeat split; reflexivity. Qed.

(** ** C2: transitions out of a terminal status *)

Lemma get_url_not_active env now userId uploadId partNo w r :
  getUploadRecord uploadId userId (uploads w) = Some r ->
  status r ≠ active ->
  get_url env now userId uploadId partNo w
  = (mkReply 400 (error_body "Upload is not active"), w).
Proof.
  intros Hr Hst. unfold get_url. unfold_async. rewrite Hr.
  by rewrite bool_decide_eq_false_2.
Qed.

(** POST /abort when the object store does not refuse the abort. *)
Lemma abort_200 env now userId uploadId w r :
  getUploadRecord uploadId userId (uploads w) = Some r ->
  (upload_type r = multipart -> abort_ok env = true) ->
  abort env now userId uploadId w
  = (mkReply 200 success_body,
     mkWorld (markUploadAborted uploadId userId now (uploads w)) (objects w)
       (timers w)).
Proof.
  intros Hr Hs3. unfold abort. unfold_async. rewrite Hr.
  case_bool_decide as Hmp; [by rewrite Hs3|done].
Qed.

(** Promotion of a completed record whose copy is refused: the cleanup runs,
    then the record is marked failed. *)
Lemma processUpload_copy_refused scan svc env now uploadId userId w r :
  getUploadRecord uploadId userId (uploads w) = Some r ->
  status r = completed ->
  copy_ok env = false ->
  let run := processUpload_with scan svc env now uploadId userId w in
  run.1 = Resolved (failure "CopyObject failed")
  /\ uploads run.2 = markUploadFailed uploadId userId now (uploads w)
  /\ timers run.2 = timers w.
Proof.
  intros Hr Hst Hcopy. unfold processUpload_with, cleanupFailedProcessing,
    ignore_errors. unfold_async. rewrite Hr, Hst, Hcopy. cbn.
  destruct (delete_ok env (finalBucket svc) (s3_key r));
    destruct (delete_ok env (tempBucket svc) (s3_key r)); done.
Qed.

(** C2, as stated, fails: a completed record is terminal, yet marking it
    failed is not rejected; the store rewrites the status, and this is the
    path promotion takes when the copy to the final bucket is refused. *)
Lemma completed_record_marked_failed :
  let db := uploads completed_world in
  status <$> getUploadRecord "up-1" "alice" db = Some completed
  /\ status <$> getUploadRecord "up-1" "alice"
                  (markUploadFailed "up-1" "alice" 4000 db) = Some failed
  /\ status <$> getUploadRecord "up-1" "alice"
                  (uploads (processUpload sample_svc copy_refused_env 4000
                              "up-1" "alice" completed_world).2)
     = Some failed.
Proof. repeat split; reflexivity. Qed.

(** C2, amended.  For the record of [uploadId] and its owner:
    - if it is active and the object store does not refuse the abort of a
      multipart upload, POST /abort answers 200, the record is aborted, and
      neither a promotion is scheduled nor an object touched;
    - if it is not active, POST /complete and POST /url answer 400
      'Upload is not active' and change nothing;
    - if it is completed and promotion's copy is refused, promotion marks it
      failed: completed -> failed is the one transition out of a terminal
      status that the design takes. *)
Theorem status_transitions svc env now userId uploadId w r :
  getUploadRecord uploadId userId (uploads w) = Some r ->
  (status r = active ->
   (upload_type r = multipart -> abort_ok env = true) ->
   exists w',
     abort env now userId uploadId w = (mkReply 200 success_body, w')
     /\ status <$> getUploadRecord uploadId userId (uploads w') = Some aborted
     /\ timers w' = timers w /\ objects w' = objects w)
  /\ (status r ≠ active ->
      (forall ps, complete env now userId (mkComplete uploadId ps) w
                  = (mkReply 400 (error_body "Upload is not active"), w))
      /\ (forall partNo, get_url env now userId uploadId partNo w
                         = (mkReply 400 (error_body "Upload is not active"), w)))
  /\ (status r = completed -> copy_ok env = false ->
      status <$> getUploadRecord uploadId userId
                   (uploads (processUpload svc env now uploadId userId w).2)
      = Some failed).
Proof.
  intros Hr. split; [|split].
  - intros _ Hs3. eexists. split; [by apply (abort_200 _ _ _ _ _ r)|].
    cbn [uploads timers objects]. unfold markUploadAborted.
    by rewrite (getUploadRecord_update_eq _ _ _ _ r).
  - intros Hst. split.
    + intros ps. by apply (complete_not_active _ _ _ (mkComplete uploadId ps) _ r).
    + intros partNo. by apply (get_url_not_active _ _ _ _ _ _ r).
  - intros Hst Hcopy.
    destruct (processUpload_copy_refused performVirusScan svc env now uploadId
                userId w r Hr Hst Hcopy) as (_ & Hdb & _).
    unfold processUpload. rewrite Hdb. unfold markUploadFailed.
    by rewrite (getUploadRecord_update_eq _ _ _ _ r).
Qed.

Lemma status_transitions_witness :
  let r := sample_record_with active [sample_part] in
  getUploadRecord "up-1" "alice" (uploads active_world) = Some r
  /\ exists w',
       abort sample_env 2000 "alice" "up-1" active_world
       = (mkReply 200 success_body, w')
       /\ status <$> getUploadRecord "up-1" "alice" (uploads w') = Some aborted
       /\ timers w' = timers active_world /\ objects w' = objects active_world.
Proof.
  intros r. split; [reflexivity|].
  destruct (status_transitions sample_svc sample_env 2000 "alice" "up-1"
              active_world r eq_refl) as (Habort & _ & _).
  apply Habort; reflexivity.
Defined.

(** POST /abort does not look at the status: on a completed record too it
    answers 200 and the record becomes aborted. *)
Lemma abort_on_completed_record :
  let run := abort sample_env 5000 "alice" "up-1" completed_world in
  run.1 = mkReply 200 success_body
  /\ status <$> getUploadRecord "up-1" "alice" (uploads run.2) = Some aborted.
Proof. split; reflexivity. Qed.

(** ** C6: part reports and the status of the record *)

Lemma complete_part_not_found now userId b w :
  getUploadRecord (cp_uploadId b) userId (uploads w) = None ->
  complete_part now userId b w = (mkReply 404 (error_body "Upload not found"), w).
Proof. intros Hr. unfold complete_part. unfold_async. by rewrite Hr. Qed.

Lemma complete_part_single now userId b w r :
  getUploadRecord (cp_uploadId b) userId (uploads w) = Some r ->
  upload_type r = single ->
  complete_part now userId b w
  = (mkReply 400
       (error_body "Part completion only supported for multipart uploads"), w).
Proof.
  intros Hr Hty. unfold complete_part. unfold_async. by rewrite Hr, Hty.
Qed.


(** C6 at a completed multipart record: the report is valid for the schema,
    the route answers 200, and the part is stored in the completed record. *)
Lemma part_report_on_completed_record :
  let run := complete_part 5000 "alice" late_report completed_world in
  CompletePartSchema late_report = true
  /\ status <$> getUploadRecord "up-1" "alice" (uploads completed_world)
     = Some completed
  /\ run.1 = mkReply 200 success_body
  /\ getUploadRecord "up-1" "alice" (uploads run.2)
     = Some (apply_patch
               (mkPatch None None (Some 5000)
                  (Some [sample_part; mkPart 2 (Some "etag-late") 4757120 (Some 5000)])
                  None None None None None None None None)
               (sample_record_with completed [sample_part])).
Proof. repeat split; reflexivity. Qed.

(** ** C1: promotion and readiness *)

(** A promotion whose copy and whose deletion of the temp object succeed:
    the final location is stored, the object has moved, and no other column
    is written; in particular the processing status keeps its value. *)
Lemma processUpload_promoted svc env now uploadId userId w r :
  getUploadRecord uploadId userId (uploads w) = Some r ->
  status r = completed ->
  copy_ok env = true ->
  delete_ok env (tempBucket svc) (s3_key r) = true ->
  let run := processUpload svc env now uploadId userId w in
  run.1 = Resolved (mkResult true (Some (s3_key r)) None None None)
  /\ objects run.2
     = ({[ (finalBucket svc, s3_key r) ]} ∪ objects w) ∖ {[ (tempBucket svc, s3_key r) ]}
  /\ exists r',
       getUploadRecord uploadId userId (uploads run.2) = Some r'
       /\ status r' = completed
       /\ final_s3_key r' = Some (s3_key r)
       /\ final_bucket r' = Some (finalBucket svc)
       /\ processing_status r' = processing_status r.
Proof.
  intros Hr Hst Hcopy Hdel.
  unfold processUpload, processUpload_with, performVirusScan. unfold_async.
  rewrite Hr, Hst, Hcopy. cbn. rewrite Hdel. cbn.
  split; [done|]. split; [done|].
  destruct (status_after_markUploadCompleted uploadId userId (Some (s3_key r))
              (Some (finalBucket svc)) None None None now (uploads w) r Hr)
    as (r' & Hr' & ? & _ & ? & ? & ? & _).
  by exists r'.
Qed.

(** The status facade after such a promotion: ready exactly when the
    processing status was already processed or null. *)
Lemma ready_after_promotion svc env now uploadId userId w r :
  getUploadRecord uploadId userId (uploads w) = Some r ->
  status r = completed ->
  copy_ok env = true ->
  delete_ok env (tempBucket svc) (s3_key r) = true ->
  exists v,
    getUploadStatus uploadId userId
      (uploads (processUpload svc env now uploadId userId w).2) = Some v
    /\ (ready_for_display v = true <->
        processing_status r = Some processed \/ processing_status r = None).
Proof.
  intros Hr Hst Hcopy Hdel.
  destruct (processUpload_promoted svc env now uploadId userId w r Hr Hst Hcopy Hdel)
    as (_ & _ & r' & Hr' & Hst' & Hkey & _ & Hps).
  unfold getUploadStatus. rewrite Hr'. eexists. split; [reflexivity|].
  cbn [ready_for_display]. rewrite ready_expr_spec, Hst', Hkey, Hps.
  split; [tauto|]. intros H. split; [done|]. split; [done|]. by intros ?.
Qed.

(** C1 on that scenario: completion answers 200, the promotion succeeds and
    stores the final key and bucket, the object is in the final bucket only,
    and the status facade reports processing_status pending and
    ready_for_display false. *)
Theorem promoted_upload_not_ready :
  scenario_completed.1
  = mkReply 200 (complete_body "alice/1000-cat.png" "temp" multipart)
  /\ exists w,
       scenario_promoted
       = Some (Resolved (mkResult true (Some "alice/1000-cat.png") None None None), w)
       /\ elements (objects w) = [("final", "alice/1000-cat.png")]
       /\ (final_s3_key <$> getUploadRecord "mp-1" "alice" (uploads w))
          = Some (Some "alice/1000-cat.png")
       /\ (final_bucket <$> getUploadRecord "mp-1" "alice" (uploads w))
          = Some (Some "final")
       /\ getUploadStatus "mp-1" "alice" (uploads w)
          = Some (mkView completed (Some pending) (Some 0) None false).
Proof.
  split; [reflexivity|]. eexists. split; [reflexivity|].
  repeat split; reflexivity.
Qed.

(** Every record that [createUploadRecord] inserts starts with
    processing_status pending, and no route and no step of promotion calls
    [updateProcessingStatus]; had promotion called it, the facade would
    report the upload ready. *)
Lemma ready_when_marked_processed :
  exists w,
    snd <$> scenario_promoted = Some w
    /\ ready_for_display
       <$> getUploadStatus "mp-1" "alice"
             (updateProcessingStatus "mp-1" "alice" processed (Some 100) None
                2004 (uploads w))
       = Some true.
Proof. eexists. split; reflexivity. Qed.

(** ** C7: a scan that reports not clean *)

(** The branch of [processUpload] for a scan that answers not clean, read
    as code: after a successful copy it deletes the final object and
    returns; the uploads table is not written.  The scanner in the
    repository never gives that answer ([performVirusScan_clean] below), so
    no run of [processUpload] takes this branch. *)
Lemma processUpload_not_clean scan detail svc env now uploadId userId w r :
  (forall key w0, scan key w0 = (Resolved (mkScan false detail), w0)) ->
  getUploadRecord uploadId userId (uploads w) = Some r ->
  status r = completed ->
  copy_ok env = true ->
  delete_ok env (finalBucket svc) (s3_key r) = true ->
  let run := processUpload_with scan svc env now uploadId userId w in
  run.1 = Resolved (failure "File failed virus scan")
  /\ ((finalBucket svc, s3_key r) ∉ objects run.2)
  /\ uploads run.2 = uploads w.
Proof.
  intros Hscan Hr Hst Hcopy Hdel.
  unfold processUpload_with. unfold_async.
  rewrite Hr, Hst, Hcopy. rewrite bool_decide_eq_true_2 by done. cbn.
  rewrite Hscan. cbn. rewrite Hdel. cbn.
  split; [done|]. split; [|done].
  intros [_ Hn]%elem_of_difference. apply Hn. by apply elem_of_singleton.
Qed.

(** The shipped scanner never reports not clean. *)
Lemma performVirusScan_clean key w :
  performVirusScan key w = (Resolved (mkScan true None), w).
Proof. reflexivity. Qed.

(** ** C9: part reports that interleave *)

Section Interleaving.
Variables uploadId userId : string.

(** The two steps of a call, taken back to back, are [updateUploadPart]. *)
Lemma step_call_twice rep (db : Uploads) :
  let '(c1, db1) := step_call uploadId userId (AwaitRead rep) db in
  let '(c2, db2) := step_call uploadId userId c1 db1 in
  (c2, Some db2)
  = match updateUploadPart uploadId userId (rp_partNumber rep) (rp_etag rep)
            (rp_size rep) (rp_now rep) db with
    | Some db' => (Settled true, Some db')
    | None => (Settled false, Some db)
    end.
Proof.
  unfold step_call, updateUploadPart.
  by destruct (getUploadRecord uploadId userId db).
Qed.

Lemma step_middle pre c rest (db : Uploads) :
  step uploadId userId (pre ++ c :: rest, db) (length pre)
  = ((pre ++ (step_call uploadId userId c db).1 :: rest),
     (step_call uploadId userId c db).2).
Proof.
  unfold step. cbn [fst snd]. rewrite list_lookup_middle by done.
  destruct (step_call uploadId userId c db) as [c' db'] eqn:Hc. cbn [fst snd].
  f_equal. replace (length pre) with (length pre + 0)%nat by lia.
  by rewrite insert_app_r.
Qed.

Lemma report_Some rep (db : Uploads) r :
  getUploadRecord uploadId userId db = Some r ->
  exists r',
    getUploadRecord uploadId userId (report uploadId userId db rep) = Some r'
    /\ parts r' = upsert_parts (part_of rep) (parts r).
Proof.
  intros Hr. unfold report.
  destruct (updateUploadPart_Some uploadId userId (rp_partNumber rep)
              (rp_etag rep) (rp_size rep) (rp_now rep) db r Hr)
    as (db' & r' & -> & Hr' & Hps & _).
  by exists r'.
Qed.

Lemma report_all_parts reports : forall (db : Uploads) r,
  getUploadRecord uploadId userId db = Some r ->
  exists r',
    getUploadRecord uploadId userId (report_all uploadId userId reports db)
    = Some r'
    /\ parts r'
       = foldl (fun ps np => upsert_parts np ps) (parts r) (part_of <$> reports).
Proof.
  induction reports as [|rep reports IH]; intros db r Hr; [by exists r|].
  destruct (report_Some rep db r Hr) as (r1 & Hr1 & Hps1).
  destruct (IH _ _ Hr1) as (r' & Hr' & Hps').
  exists r'. split; [exact Hr'|]. rewrite Hps', Hps1. reflexivity.
Qed.

(** Run one after the other, the calls settle and the table is the one
    that the unsuspended calls produce. *)
Lemma run_sequential reports : forall pre (db : Uploads) r,
  getUploadRecord uploadId userId db = Some r ->
  run_schedule uploadId userId (sequential (length pre) (length reports))
    (pre ++ (AwaitRead <$> reports), db)
  = (pre ++ replicate (length reports) (Settled true),
     report_all uploadId userId reports db).
Proof.
  induction reports as [|rep reports IH]; intros pre db r Hr; [done|].
  cbn [length sequential fmap list_fmap]. unfold run_schedule. cbn [foldl].
  rewrite step_middle. cbn [step_call]. rewrite Hr. cbn [fst snd].
  rewrite step_middle. cbn [step_call fst snd].
  destruct (report_Some rep db r Hr) as (r1 & Hr1 & _).
  assert (Hdb : update_eq uploadId userId
                  (mkPatch None None (Some (rp_now rep))
                     (Some (upsert_parts (part_of rep) (parts r)))
                     None None None None None None None None) db
                = report uploadId userId db rep).
  { unfold report, updateUploadPart. by rewrite Hr. }
  rewrite Hdb.
  replace (S (length pre)) with (length (pre ++ [Settled true]))
    by (rewrite length_app; cbn; lia).
  rewrite (cons_middle (Settled true)), app_assoc.
  fold (run_schedule uploadId userId
          (sequential (length (pre ++ [Settled true])) (length reports))
          ((pre ++ [Settled true]) ++ (AwaitRead <$> reports),
           report uploadId userId db rep)).
  rewrite (IH _ _ r1 Hr1). by rewrite <- app_assoc.
Qed.
End Interleaving.

Section KeepsParts.
Implicit Types (p np : UploadPart) (ps nps : list UploadPart).

Lemma upsert_parts_keeps np p ps :
  p ∈ ps -> partNumber p ≠ partNumber np -> p ∈ upsert_parts np ps.
Proof.
  intros Hin Hne. induction ps as [|q ps IH]; [by apply elem_of_nil in Hin|].
  rewrite upsert_parts_cons. apply elem_of_cons in Hin as [->|Hin].
  - rewrite bool_decide_eq_false_2 by done. left.
  - case_bool_decide; right; [done|by apply IH].
Qed.

Lemma foldl_upsert_keeps nps : forall ps p,
  p ∈ ps -> partNumber p ∉ partNumber <$> nps ->
  p ∈ foldl (fun ps np => upsert_parts np ps) ps nps.
Proof.
  induction nps as [|np nps IH]; intros ps p Hin Hfresh; [done|].
  rewrite fmap_cons, not_elem_of_cons in Hfresh. destruct Hfresh as [Hne Hfresh].
  cbn [foldl]. apply IH; [|done]. by apply upsert_parts_keeps.
Qed.

(** Reports of distinct part numbers, applied one after the other, are all
    in the array at the end. *)
Lemma foldl_upsert_elem nps : forall ps np,
  NoDup (partNumber <$> nps) -> np ∈ nps ->
  np ∈ foldl (fun ps np => upsert_parts np ps) ps nps.
Proof.
  induction nps as [|np0 nps IH]; intros ps np Hnd Hin;
    [by apply elem_of_nil in Hin|].
  rewrite fmap_cons, NoDup_cons in Hnd. destruct Hnd as [Hfresh Hnd].
  cbn [foldl]. apply elem_of_cons in Hin as [->|Hin].
  - apply foldl_upsert_keeps; [apply upsert_parts_elem|done].
  - by apply IH.
Qed.

Lemma foldl_upsert_length nps : forall ps,
  NoDup (partNumber <$> nps) ->
  (forall np, np ∈ nps -> partNumber np ∉ partNumber <$> ps) ->
  length (foldl (fun ps np => upsert_parts np ps) ps nps)
  = (length ps + length nps)%nat.
Proof.
  induction nps as [|np0 nps IH]; intros ps Hnd Hnew; [cbn; lia|].
  rewrite fmap_cons, NoDup_cons in Hnd. destruct Hnd as [Hfresh Hnd].
  cbn [foldl length]. rewrite upsert_parts_absent by (apply Hnew; left).
  rewrite IH; [rewrite length_app; cbn; lia|done|].
  intros np Hin. rewrite fmap_app, elem_of_app. intros [Hold|Heq].
  - by apply (Hnew np); [right|].
  - apply list_elem_of_singleton in Heq. apply Hfresh. rewrite <- Heq.
    by apply list_elem_of_fmap_2.
Qed.
End KeepsParts.

(** C9, as stated, fails: two reports for parts 1 and 2 of a fresh multipart
    record, resumed in the order read, read, write, write, both resolve, and
    the table holds part 2 only. *)
Lemma interleaved_part_reports_lose_a_part :
  let db : Uploads := {[ "up-1" := sample_record_with active [] ]} in
  let final := run_schedule "up-1" "alice" [0; 1; 0; 1]%nat
                 (AwaitRead <$> racing_reports, db) in
  NoDup (rp_partNumber <$> racing_reports)
  /\ final.1 = [Settled true; Settled true]
  /\ parts <$> getUploadRecord "up-1" "alice" final.2
     = Some [mkPart 2 (Some "etag-2") 4757120 (Some 1002)].
Proof.
  split; [|split; reflexivity].
  apply (bool_decide_unpack _). reflexivity.
Qed.

(** C9, amended.  Part reports for distinct part numbers of one upload, each
    running its read and its write before the next one reads, all resolve
    and all persist: every reported part is in the stored array, and when
    none of the numbers was stored before, the array has grown by the number
    of reports. *)
Theorem sequential_part_reports_persist
    uploadId userId (reports : list PartReport) (db : Uploads) r :
  getUploadRecord uploadId userId db = Some r ->
  NoDup (rp_partNumber <$> reports) ->
  exists db' r',
    run_schedule uploadId userId (sequential 0 (length reports))
      (AwaitRead <$> reports, db)
    = (replicate (length reports) (Settled true), db')
    /\ getUploadRecord uploadId userId db' = Some r'
    /\ (forall rep, rep ∈ reports -> part_of rep ∈ parts r')
    /\ ((forall rep, rep ∈ reports -> rp_partNumber rep ∉ partNumber <$> parts r) ->
        length (parts r') = (length (parts r) + length reports)%nat).
Proof.
  intros Hr Hnd.
  destruct (report_all_parts uploadId userId reports db r Hr) as (r' & Hr' & Hps).
  exists (report_all uploadId userId reports db), r'.
  assert (Hnums : partNumber <$> (part_of <$> reports) = rp_partNumber <$> reports)
    by (by rewrite <- list_fmap_compose).
  split; [apply (run_sequential uploadId userId reports [] db r Hr)|].
  split; [exact Hr'|]. rewrite Hps. split.
  - intros rep Hin. apply foldl_upsert_elem; [by rewrite Hnums|].
    by apply list_elem_of_fmap_2.
  - intros Hnew. rewrite foldl_upsert_length, length_fmap; [done|by rewrite Hnums|].
    intros np (rep & -> & Hin)%list_elem_of_fmap. by apply Hnew.
Qed.

Lemma sequential_part_reports_persist_witness :
  let db : Uploads := {[ "up-1" := sample_record_with active [] ]} in
  getUploadRecord "up-1" "alice" db = Some (sample_record_with active [])
  /\ NoDup (rp_partNumber <$> ten_reports)
  /\ exists db' r',
       run_schedule "up-1" "alice" (sequential 0 10) (AwaitRead <$> ten_reports, db)
       = (replicate 10 (Settled true), db')
       /\ getUploadRecord "up-1" "alice" db' = Some r'
       /\ (forall rep, rep ∈ ten_reports -> part_of rep ∈ parts r')
       /\ ((forall rep, rep ∈ ten_reports ->
              rp_partNumber rep ∉ partNumber <$> parts (sample_record_with active [])) ->
           length (parts r') = 10%nat).
Proof.
  intros db.
  assert (Hr : getUploadRecord "up-1" "alice" db = Some (sample_record_with active []))
    by reflexivity.
  assert (Hnd : NoDup (rp_partNumber <$> ten_reports))
    by (apply (bool_decide_unpack _); reflexivity).
  split; [exact Hr|]. split; [exact Hnd|].
  exact (sequential_part_reports_persist "up-1" "alice" ten_reports db
           (sample_record_with active []) Hr Hnd).
Defined.

(** * Further properties *)

(** ** Ownership *)

Lemma getUploadRecord_foreign uploadId intruder (db : Uploads) r :
  db !! uploadId = Some r -> user_id r ≠ intruder ->
  getUploadRecord uploadId intruder db = None.
Proof.
  intros Hl Hne. unfold getUploadRecord. rewrite Hl.
  by rewrite bool_decide_eq_false_2.
Qed.

(** Every route, the status facade and promotion treat an upload that the
    caller does not own as absent, and none of them writes. *)
Lemma absent_upload_is_404 svc env now userId uploadId w :
  getUploadRecord uploadId userId (uploads w) = None ->
  getUploadStatus uploadId userId (uploads w) = None
  /\ (forall partNo, get_url env now userId uploadId partNo w
                     = (mkReply 404 (error_body "Upload not found"), w))
  /\ (forall n tag sz, complete_part now userId (mkCompletePart uploadId n tag sz) w
                       = (mkReply 404 (error_body "Upload not found"), w))
  /\ (forall ps, complete env now userId (mkComplete uploadId ps) w
                 = (mkReply 404 (error_body "Upload not found"), w))
  /\ abort env now userId uploadId w
     = (mkReply 404 (error_body "Upload not found"), w)
  /\ upload_status_route userId uploadId w
     = (mkReply 404 (error_body "Upload not found"), w)
  /\ processing_status_route userId uploadId w
     = processing_error 404 "Upload not found"
  /\ (forall scan, processUpload_with scan svc env now uploadId userId w
                   = (Resolved (failure "Upload record not found"), w)).
Proof.
  intros Hr.
  unfold getUploadStatus, get_url, complete_part, complete, abort,
    upload_status_route, processing_status_route, processUpload_with,
    getUploadStatus.
  unfold_async. cbn [cp_uploadId cu_uploadId]. rewrite !Hr. done.
Qed.

(** X1.  A user who is not the owner of an upload is answered as if the
    upload did not exist (404 from every route, not found from promotion and
    from the status facade), and none of the five store updates changes the
    table when called in that user's name. *)
Theorem foreign_upload_is_invisible
    svc env now uploadId intruder w r :
  uploads w !! uploadId = Some r ->
  user_id r ≠ intruder ->
  getUploadRecord uploadId intruder (uploads w) = None
  /\ getUploadStatus uploadId intruder (uploads w) = None
  /\ (forall partNo, get_url env now intruder uploadId partNo w
                     = (mkReply 404 (error_body "Upload not found"), w))
  /\ (forall n tag sz, complete_part now intruder (mkCompletePart uploadId n tag sz) w
                       = (mkReply 404 (error_body "Upload not found"), w))
  /\ (forall ps, complete env now intruder (mkComplete uploadId ps) w
                 = (mkReply 404 (error_body "Upload not found"), w))
  /\ abort env now intruder uploadId w
     = (mkReply 404 (error_body "Upload not found"), w)
  /\ upload_status_route intruder uploadId w
     = (mkReply 404 (error_body "Upload not found"), w)
  /\ processUpload svc env now uploadId intruder w
     = (Resolved (failure "Upload record not found"), w)
  /\ (forall n tag sz, updateUploadPart uploadId intruder n tag sz now (uploads w) = None)
  /\ (forall f b t u c, markUploadCompleted uploadId intruder f b t u c now (uploads w)
                        = uploads w)
  /\ markUploadAborted uploadId intruder now (uploads w) = uploads w
  /\ markUploadFailed uploadId intruder now (uploads w) = uploads w
  /\ (forall ps p m, updateProcessingStatus uploadId intruder ps p m now (uploads w)
                     = uploads w).
Proof.
  intros Hl Hne.
  pose proof (getUploadRecord_foreign uploadId intruder (uploads w) r Hl Hne) as Hr.
  destruct (absent_upload_is_404 svc env now intruder uploadId w Hr)
    as (H1 & H2 & H3 & H4 & H5 & H6 & _ & H8).
  split; [done|]. split; [done|]. split; [done|]. split; [done|].
  split; [done|]. split; [done|]. split; [done|]. split; [apply H8|].
  unfold updateUploadPart, markUploadCompleted, markUploadAborted,
    markUploadFailed, updateProcessingStatus.
  rewrite Hr. repeat split; intros; by apply update_eq_no_row.
Qed.

Lemma foreign_upload_is_invisible_witness :
  let r := sample_record_with active [sample_part] in
  uploads active_world !! "up-1" = Some r
  /\ user_id r ≠ "mallory"
  /\ getUploadRecord "up-1" "mallory" (uploads active_world) = None
  /\ abort sample_env 2000 "mallory" "up-1" active_world
     = (mkReply 404 (error_body "Upload not found"), active_world)
  /\ markUploadFailed "up-1" "mallory" 2000 (uploads active_world)
     = uploads active_world.
Proof.
  intros r.
  assert (Hl : uploads active_world !! "up-1" = Some r) by reflexivity.
  assert (Hne : user_id r ≠ "mallory") by done.
  destruct (foreign_upload_is_invisible sample_svc sample_env 2000 "up-1"
              "mallory" active_world r Hl Hne)
    as (H1 & _ & _ & _ & _ & H6 & _ & _ & _ & _ & _ & H12 & _).
  by repeat split.
Defined.

(** ** Inserting a record *)

(** X2.  [createUploadRecord] on a free upload id returns the generated row
    id and inserts an active record that the owner reads back: processing
    status pending, progress 0, no parts, no completion time, no final
    location; the rows of other upload ids are untouched.  On a taken upload
    id it fails.  A null or empty upload id is replaced by 'single-' followed
    by the clock. *)
Theorem createUploadRecord_round_trip sp rowId now (db : Uploads) :
  let uid := upload_id_or_single (sp_uploadId sp) now in
  (db !! uid = None ->
   exists db' r,
     createUploadRecord sp rowId now db = Some (rowId, db')
     /\ getUploadRecord uid (sp_userId sp) db' = Some r
     /\ id r = rowId /\ upload_id r = uid /\ user_id r = sp_userId sp
     /\ s3_key r = sp_s3Key sp /\ bucket r = sp_bucket sp
     /\ filename r = sp_filename sp /\ content_type r = sp_contentType sp
     /\ total_size r = sp_totalSize sp /\ upload_type r = sp_uploadType sp
     /\ status r = active /\ processing_status r = Some pending
     /\ processing_progress r = Some 0 /\ parts r = []
     /\ created_at r = now /\ updated_at r = now /\ completed_at r = None
     /\ final_s3_key r = None /\ final_bucket r = None
     /\ (forall other, other ≠ uid -> db' !! other = db !! other))
  /\ (is_Some (db !! uid) -> createUploadRecord sp rowId now db = None)
  /\ (sp_uploadId sp = None \/ sp_uploadId sp = Some "" ->
      uid = "single-" +:+ pretty now).
Proof.
  intros uid. split; [|split].
  - intros Hfree. unfold createUploadRecord. fold uid. rewrite Hfree.
    eexists _, _. split; [reflexivity|].
    split; [apply getUploadRecord_intro; [apply lookup_insert_eq|done]|].
    repeat (split; [reflexivity|]).
    intros other Hne. by rewrite lookup_insert_ne.
  - intros [r0 Hr0]. unfold createUploadRecord. fold uid. by rewrite Hr0.
  - subst uid. by intros [->| ->].
Qed.

(** ** Processing status *)

(** X3.  [updateProcessingStatus] stores the given processing status; a
    progress value is stored clamped into [0, 100] (unchanged when already
    inside), an omitted progress or message leaves the column as it was; the
    upload status, the parts and the final location are not written. *)
Theorem updateProcessingStatus_clamps
    uploadId userId ps progress message now (db : Uploads) r :
  getUploadRecord uploadId userId db = Some r ->
  exists r',
    getUploadRecord uploadId userId
      (updateProcessingStatus uploadId userId ps progress message now db) = Some r'
    /\ processing_status r' = Some ps
    /\ (forall p, progress = Some p ->
          exists q, processing_progress r' = Some q /\ 0 <= q <= 100
                    /\ (0 <= p <= 100 -> q = p)
                    /\ (p < 0 -> q = 0) /\ (100 < p -> q = 100))
    /\ (progress = None -> processing_progress r' = processing_progress r)
    /\ (forall m, message = Some m -> processing_message r' = Some m)
    /\ (message = None -> processing_message r' = processing_message r)
    /\ status r' = status r /\ parts r' = parts r
    /\ final_s3_key r' = final_s3_key r /\ final_bucket r' = final_bucket r.
Proof.
  intros Hr. eexists. split; [by apply getUploadRecord_update_eq|].
  split; [reflexivity|]. split.
  { intros p ->. exists (clamp_progress p). split; [reflexivity|].
    unfold clamp_progress. lia. }
  split; [by intros ->|]. split; [by intros m ->|]. split; [by intros ->|].
  done.
Qed.

Lemma updateProcessingStatus_clamps_witness :
  let r := sample_record_with completed [sample_part] in
  getUploadRecord "up-1" "alice" (uploads completed_world) = Some r
  /\ processing_progress
     <$> getUploadRecord "up-1" "alice"
           (updateProcessingStatus "up-1" "alice" processing (Some 250) None 3000
              (uploads completed_world))
     = Some (Some 100).
Proof.
  intros r. split; [reflexivity|].
  destruct (updateProcessingStatus_clamps "up-1" "alice" processing (Some 250)
              None 3000 (uploads completed_world) r eq_refl)
    as (r' & -> & _ & Hp & _).
  destruct (Hp 250 eq_refl) as (q & Hq & _ & _ & _ & Hhi).
  cbn. by rewrite Hq, Hhi.
Defined.

(** ** Selects and updates over all rows *)

Lemma elem_of_rows_where P (db : Uploads) r :
  r ∈ rows_where P db <-> (exists u, db !! u = Some r) /\ P r = true.
Proof.
  unfold rows_where. rewrite list_elem_of_filter, list_elem_of_fmap. split.
  - intros [HP ([u r0] & -> & Hin)]. apply elem_of_map_to_list in Hin.
    split; [by exists u|done].
  - intros [[u Hu] HP]. split; [done|]. exists (u, r). split; [done|].
    by apply elem_of_map_to_list.
Qed.

Lemma lookup_update_where P p (db : Uploads) u :
  update_where P p db !! u
  = (fun r => if P r then apply_patch p r else r) <$> db !! u.
Proof. unfold update_where. apply lookup_fmap. Qed.

#[global] Instance newer_first_total : Total newer_first.
Proof. intros a b. unfold newer_first. lia. Qed.


(** X5.  [cleanupStaleUploads] marks failed every active record created
    before the cutoff (now minus the given hours), whoever owns it: the row
    afterwards is the row before with status failed and [updated_at] the
    clock, every other column as it was; every other record is
    untouched; no active record older than the cutoff is left; the number
    returned is 0 exactly when the table did not change, and running it again
    with the same clock returns 0 and changes nothing. *)
Theorem cleanupStaleUploads_spec olderThanHours now (db : Uploads) :
  let cutoff := now - olderThanHours * 3600000 in
  let run := cleanupStaleUploads olderThanHours now db in
  (forall u r, db !! u = Some r -> status r = active -> created_at r < cutoff ->
     run.2 !! u
     = Some {| id := id r;
               user_id := user_id r;
               upload_id := upload_id r;
               s3_key := s3_key r;
               bucket := bucket r;
               filename := filename r;
               content_type := content_type r;
               total_size := total_size r;
               status := failed;
               processing_status := processing_status r;
               processing_progress := processing_progress r;
               processing_message := processing_message r;
               upload_type := upload_type r;
               parts := parts r;
               created_at := created_at r;
               updated_at := now;
               completed_at := completed_at r;
               final_s3_key := final_s3_key r;
               final_bucket := final_bucket r;
               thumbnail_s3_key := thumbnail_s3_key r;
               thumbnail_url := thumbnail_url r;
               thumbnail_cloudinary_url := thumbnail_cloudinary_url r |})
  /\ (forall u r, db !! u = Some r ->
        status r ≠ active \/ cutoff <= created_at r -> run.2 !! u = Some r)
  /\ (forall u, db !! u = None -> run.2 !! u = None)
  /\ (forall u r', run.2 !! u = Some r' ->
        ~ (status r' = active /\ created_at r' < cutoff))
  /\ (run.1 = 0%nat <-> run.2 = db)
  /\ cleanupStaleUploads olderThanHours now run.2 = (0%nat, run.2).
Proof.
  intros cutoff run.
  assert (Hstale : forall r, is_stale cutoff r = true <->
                             status r = active /\ created_at r < cutoff).
  { intros r. unfold is_stale.
    rewrite andb_true_iff, bool_decide_eq_true, Z.ltb_lt. tauto. }
  assert (Hlook : forall u, run.2 !! u
            = (fun r => if is_stale cutoff r
                        then apply_patch
                               (mkPatch (Some failed) None (Some now) None
                                  None None None None None None None None) r
                        else r) <$> db !! u).
  { intros u. apply lookup_update_where. }
  assert (Hpost : forall u r', run.2 !! u = Some r' -> is_stale cutoff r' = false).
  { intros u r'. rewrite Hlook. destruct (db !! u) as [r|]; [|done].
    cbn. destruct (is_stale cutoff r) eqn:Hs; intros [= <-]; [|done].
    apply not_true_is_false. rewrite Hstale. cbn. by intros [? _]. }
  assert (Hcount : forall (m : Uploads),
            base.size (filter (fun kr => is_stale cutoff kr.2 = true) m) = 0%nat
            <-> forall u r, m !! u = Some r -> is_stale cutoff r = false).
  { intros m. rewrite map_size_empty_iff, map_empty. split.
    - intros H u r Hu. apply not_true_is_false. intros Hs.
      specialize (H u). apply map_lookup_filter_None in H as [H|H];
        [congruence|by apply (H r)].
    - intros H u. apply map_lookup_filter_None. right. intros r Hu. cbn.
      by rewrite (H u r Hu). }
  assert (Hsame : forall (m : Uploads),
            (forall u r, m !! u = Some r -> is_stale cutoff r = false) ->
            update_where (is_stale cutoff)
              (mkPatch (Some failed) None (Some now) None
                 None None None None None None None None) m = m).
  { intros m H. apply map_eq. intros u. rewrite lookup_update_where.
    destruct (m !! u) as [r|] eqn:Hu; [|done]. cbn. by rewrite (H u r Hu). }
  split; [|split; [|split; [|split; [|split]]]].
  - intros u r Hu Hact Hold. rewrite Hlook, Hu. cbn.
    by rewrite (proj2 (Hstale r)).
  - intros u r Hu Hfresh. rewrite Hlook, Hu. cbn.
    destruct (is_stale cutoff r) eqn:Hs; [|done].
    apply Hstale in Hs as [Hact Hold]. destruct Hfresh; [done|lia].
  - intros u Hu. by rewrite Hlook, Hu.
  - intros u r' Hu. apply Hpost in Hu. rewrite <- Hstale. by rewrite Hu.
  - unfold run, cleanupStaleUploads. cbn [fst snd]. fold cutoff.
    unfold cutoffDate. fold cutoff. rewrite Hcount. split.
    + apply Hsame.
    + intros Heq u r Hu. apply (Hpost u). fold cutoff in Heq.
      unfold run, cleanupStaleUploads, cutoffDate. cbn [snd]. fold cutoff.
      by rewrite Heq.
  - unfold cleanupStaleUploads at 1. unfold cutoffDate. fold cutoff. f_equal.
    + by apply Hcount.
    + by apply Hsame.
Qed.

(** X6.  A record that [getUploadRecordByS3Key] returns is a row of the
    table with that key and that owner; when two rows of the owner share the
    key the lookup answers null, although [markUploadFailedByS3Key] and
    [markUploadCompletedByS3Key] write every such row, and only such rows. *)
Theorem by_s3_key_spec s3Key userId now (db : Uploads) :
  (forall r, getUploadRecordByS3Key s3Key userId db = Some r ->
     (exists u, db !! u = Some r) /\ s3_key r = s3Key /\ user_id r = userId)
  /\ (forall u r, db !! u = Some r ->
        exists r',
          markUploadFailedByS3Key s3Key userId now db !! u = Some r'
          /\ (s3_key r = s3Key -> user_id r = userId ->
              status r' = failed /\ parts r' = parts r)
          /\ (s3_key r ≠ s3Key \/ user_id r ≠ userId -> r' = r))
  /\ (forall f b t tu tc u r, db !! u = Some r ->
        exists r',
          markUploadCompletedByS3Key s3Key userId f b t tu tc now db !! u = Some r'
          /\ (s3_key r = s3Key -> user_id r = userId ->
              status r' = completed /\ completed_at r' = Some now
              /\ final_s3_key r' = set_null_col f (final_s3_key r))
          /\ (s3_key r ≠ s3Key \/ user_id r ≠ userId -> r' = r))
  /\ (forall r1 r2 rest,
        rows_where (has_key_of s3Key userId) db = r1 :: r2 :: rest ->
        getUploadRecordByS3Key s3Key userId db = None).
Proof.
  assert (Hkey : forall r, has_key_of s3Key userId r = true <->
                           s3_key r = s3Key /\ user_id r = userId).
  { intros r. unfold has_key_of.
    by rewrite andb_true_iff, !bool_decide_eq_true. }
  split; [|split; [|split]].
  - intros r. unfold getUploadRecordByS3Key.
    destruct (rows_where _ db) as [|r0 [|r1 rest]] eqn:Hrows; [done| |done].
    intros [= ->].
    assert (Hin : r ∈ rows_where (has_key_of s3Key userId) db)
      by (rewrite Hrows; left).
    apply elem_of_rows_where in Hin as [Hex HP]. apply Hkey in HP. tauto.
  - intros u r Hu. unfold markUploadFailedByS3Key.
    rewrite lookup_update_where, Hu. cbn.
    destruct (has_key_of s3Key userId r) eqn:HP; eexists; (split; [reflexivity|]).
    + split; [done|]. apply Hkey in HP. intros [?|?]; tauto.
    + split; [|done]. intros ? ?.
      assert (has_key_of s3Key userId r = true) by by apply Hkey. congruence.
  - intros f b t tu tc u r Hu. unfold markUploadCompletedByS3Key.
    rewrite lookup_update_where, Hu. cbn.
    destruct (has_key_of s3Key userId r) eqn:HP; eexists; (split; [reflexivity|]).
    + split; [done|]. apply Hkey in HP. intros [?|?]; tauto.
    + split; [|done]. intros ? ?.
      assert (has_key_of s3Key userId r = true) by by apply Hkey. congruence.
  - intros r1 r2 rest Hrows. unfold getUploadRecordByS3Key. by rewrite Hrows.
Qed.

(** ** POST /complete, case by case *)

(** X7.  POST /complete on an active multipart record without a part list,
    or with an empty one, answers 400 'Parts required for multipart upload'
    and changes nothing.  With a part list that the object store refuses, it
    answers 500, marks the record failed and schedules no promotion. *)
Theorem complete_multipart_failures env now userId uploadId w r :
  getUploadRecord uploadId userId (uploads w) = Some r ->
  status r = active ->
  upload_type r = multipart ->
  complete env now userId (mkComplete uploadId None) w
  = (mkReply 400 (error_body "Parts required for multipart upload"), w)
  /\ complete env now userId (mkComplete uploadId (Some [])) w
     = (mkReply 400 (error_body "Parts required for multipart upload"), w)
  /\ (forall p ps,
        complete_ok env (merge_sort part_le (p :: ps)) = false ->
        let run := complete env now userId (mkComplete uploadId (Some (p :: ps))) w in
        run.1 = mkReply 500 (error_body "Failed to complete upload")
        /\ status <$> getUploadRecord uploadId userId (uploads run.2) = Some failed
        /\ uploads run.2 = markUploadFailed uploadId userId now (uploads w)
        /\ timers run.2 = timers w /\ objects run.2 = objects w).
Proof.
  intros Hr Hact Hmp. unfold complete. unfold_async.
  cbn [cu_uploadId cu_parts]. rewrite Hr, Hact, Hmp.
  rewrite !bool_decide_eq_true_2 by done. cbn [negb].
  split; [done|]. split; [done|]. intros p ps Hno. rewrite Hno. cbn.
  split; [done|]. split; [|done].
  unfold markUploadFailed. by rewrite (getUploadRecord_update_eq _ _ _ _ r).
Qed.

Lemma complete_multipart_failures_witness :
  let r := sample_record_with active [sample_part] in
  let run := complete complete_refused_env 2000 "alice"
               (mkComplete "up-1" (Some [(1, "etag-a")])) active_world in
  getUploadRecord "up-1" "alice" (uploads active_world) = Some r
  /\ status r = active /\ upload_type r = multipart
  /\ run.1 = mkReply 500 (error_body "Failed to complete upload")
  /\ status <$> getUploadRecord "up-1" "alice" (uploads run.2) = Some failed.
Proof.
  intros r run.
  destruct (complete_multipart_failures complete_refused_env 2000 "alice" "up-1"
              active_world r eq_refl eq_refl eq_refl) as (_ & _ & H).
  destruct (H (1, "etag-a") [] eq_refl) as (H1 & H2 & _).
  by repeat split.
Defined.

(** X8.  POST /complete on an active record succeeds for a single-part
    upload whatever the part list and whatever the object store would
    answer (the store is not called: no object appears), and for a multipart
    upload when the store accepts the sorted part list (the assembled
    object then exists in the record's bucket).  In both cases the reply is
    200 with the record's key, bucket and type, the record is completed with
    the clock as completion time and its final location untouched, and
    exactly one promotion of this upload is appended to the timers. *)
Theorem complete_success env now userId uploadId parts_opt w r :
  getUploadRecord uploadId userId (uploads w) = Some r ->
  status r = active ->
  (upload_type r = multipart ->
   exists p ps, parts_opt = Some (p :: ps)
                /\ complete_ok env (merge_sort part_le (p :: ps)) = true) ->
  let run := complete env now userId (mkComplete uploadId parts_opt) w in
  run.1 = mkReply 200 (complete_body (s3_key r) (bucket r) (upload_type r))
  /\ (exists r', getUploadRecord uploadId userId (uploads run.2) = Some r'
        /\ status r' = completed /\ completed_at r' = Some now
        /\ final_s3_key r' = final_s3_key r /\ final_bucket r' = final_bucket r
        /\ parts r' = parts r /\ processing_status r' = processing_status r)
  /\ timers run.2 = timers w ++ [(uploadId, userId)]
  /\ objects run.2
     = (if bool_decide (upload_type r = multipart)
        then {[ (bucket r, s3_key r) ]} ∪ objects w else objects w).
Proof.
  intros Hr Hact Hparts.
  destruct (status_after_markUploadCompleted uploadId userId None None None None
              None now (uploads w) r Hr)
    as (r' & Hr' & ? & ? & ? & ? & ? & ?).
  unfold complete. unfold_async. cbn [cu_uploadId cu_parts]. rewrite Hr, Hact.
  rewrite (bool_decide_eq_true_2 (active = active)) by done. cbn [negb].
  case_bool_decide as Hmp.
  - destruct (Hparts Hmp) as (p & ps & -> & Hok). rewrite Hok. cbn.
    split; [done|]. split; [by exists r'|]. done.
  - cbn. split; [done|]. split; [by exists r'|]. done.
Qed.

Lemma complete_success_witness :
  let run := complete complete_refused_env 2000 "alice"
               (mkComplete "single-1000-k3x9" None) single_world in
  getUploadRecord "single-1000-k3x9" "alice" (uploads single_world)
  = Some single_record
  /\ status single_record = active
  /\ run.1 = mkReply 200 (complete_body "alice/1000-dot.png" "temp" single)
  /\ timers run.2 = [("single-1000-k3x9", "alice")]
  /\ objects run.2 = ∅.
Proof.
  intros run.
  destruct (complete_success complete_refused_env 2000 "alice"
              "single-1000-k3x9" None single_world single_record
              eq_refl eq_refl) as (H1 & _ & H3 & H4); [done|].
  by repeat split.
Defined.

(** ** POST /abort and the object store *)

(** X9.  When the object store refuses to abort a multipart upload,
    POST /abort answers 500 'Failed to abort upload' and the record keeps
    its status: nothing is written.  For a single-part upload the store is
    not consulted and the record is marked aborted. *)
Theorem abort_and_the_store env now userId uploadId w r :
  getUploadRecord uploadId userId (uploads w) = Some r ->
  (upload_type r = multipart -> abort_ok env = false ->
   abort env now userId uploadId w
   = (mkReply 500 (error_body "Failed to abort upload"), w))
  /\ (upload_type r = single ->
      let run := abort env now userId uploadId w in
      run.1 = mkReply 200 success_body
      /\ status <$> getUploadRecord uploadId userId (uploads run.2) = Some aborted
      /\ objects run.2 = objects w /\ timers run.2 = timers w).
Proof.
  intros Hr. split.
  - intros Hmp Hno. unfold abort. unfold_async. by rewrite Hr, Hmp, Hno.
  - intros Hs. rewrite (abort_200 env now userId uploadId w r Hr) by congruence.
    cbn. split; [done|]. split; [|done].
    unfold markUploadAborted. by rewrite (getUploadRecord_update_eq _ _ _ _ r).
Qed.

Lemma abort_and_the_store_witness :
  getUploadRecord "up-1" "alice" (uploads active_world)
  = Some (sample_record_with active [sample_part])
  /\ abort abort_refused_env 2000 "alice" "up-1" active_world
     = (mkReply 500 (error_body "Failed to abort upload"), active_world).
Proof.
  split; [reflexivity|].
  destruct (abort_and_the_store abort_refused_env 2000 "alice" "up-1"
              active_world (sample_record_with active [sample_part]) eq_refl)
    as [H _].
  by apply H.
Defined.

(** ** POST /initiate, failures and the chunk hint *)

(** X10.  POST /initiate answers 500 and inserts nothing when a multipart
    upload cannot be opened at the object store (the call throws, or answers
    without an upload id) or when the upload id is already in the table.  A
    single-part initiate does not depend on the object store. *)
Theorem initiate_failures svc env now rnd rowId userId b w :
  (detect_upload_type (ini_totalSize b) = multipart ->
   create_answer env = None \/ create_answer env = Some "" ->
   initiate svc env now rnd rowId userId b w
   = (mkReply 500 (error_body "Failed to initiate upload"), w))
  /\ (forall u, detect_upload_type (ini_totalSize b) = multipart ->
        create_answer env = Some u -> is_Some (uploads w !! u) ->
        initiate svc env now rnd rowId userId b w
        = (mkReply 500 (error_body "Failed to initiate upload"), w))
  /\ (detect_upload_type (ini_totalSize b) = single ->
      forall env', initiate svc env now rnd rowId userId b w
                   = initiate svc env' now rnd rowId userId b w).
Proof.
  unfold initiate, initiateMultipartUpload. unfold_async. cbn zeta.
  split; [|split].
  - intros -> [Hno|Hno]; rewrite Hno; done.
  - intros u -> Hu [r0 Hr0]. rewrite Hu.
    rewrite (bool_decide_eq_true_2 (multipart = multipart)) by done.
    destruct (decide (u = "")) as [->|Hempty]; [done|].
    rewrite (bool_decide_eq_false_2 (u = "")) by done.
    unfold createUploadRecord. cbn [sp_uploadId upload_id_or_single].
    rewrite (bool_decide_eq_false_2 (u = "")) by done. by rewrite Hr0.
  - intros -> env'. done.
Qed.

(** X11.  The chunk hint of a successful initiate on a valid body: for a
    multipart upload the chunks of the announced size cover the file and the
    last one is not empty, (totalChunks - 1) * chunkSize < totalSize <=
    totalChunks * chunkSize, with chunkSize the client's value or 10 MiB;
    for a single-part upload totalChunks is 1 and chunkSize is the file
    size. *)
Theorem initiate_chunks_cover_file
    svc env now rnd rowId userId b w uploadId key ut chunkSize totalChunks w' :
  InitiateUploadSchema b = true ->
  initiate svc env now rnd rowId userId b w
  = (mkReply 200 (initiate_body uploadId key ut chunkSize totalChunks), w') ->
  (ut = multipart ->
   chunkSize = default (10 * 1024 * 1024) (ini_chunkSize b)
   /\ 1 <= totalChunks
   /\ (totalChunks - 1) * chunkSize < ini_totalSize b <= totalChunks * chunkSize)
  /\ (ut = single -> chunkSize = ini_totalSize b /\ totalChunks = 1).
Proof.
  intros Hvalid Hrun.
  destruct (initiate_200 _ _ _ _ _ _ _ _ _ _ Hrun eq_refl)
    as (uploadId' & key' & Hbody & _).
  cbn [payload] in Hbody. cbn zeta in Hbody.
  injection Hbody as _ _ Hut Hchunk Htotal.
  assert (Hc : 1024 <= default (10 * 1024 * 1024) (ini_chunkSize b)).
  { unfold InitiateUploadSchema in Hvalid.
    destruct (ini_chunkSize b) as [c|]; cbn; [|lia].
    repeat (apply andb_true_iff in Hvalid as [Hvalid ?]). lia. }
  assert (Hs : 1 <= ini_totalSize b).
  { unfold InitiateUploadSchema in Hvalid.
    repeat (apply andb_true_iff in Hvalid as [Hvalid ?]). lia. }
  rewrite <- Hut in *. split.
  - intros Hmp. rewrite Hmp in *.
    rewrite bool_decide_eq_true_2 in Hchunk, Htotal by done.
    split; [done|]. subst chunkSize totalChunks.
    set (c := default (10 * 1024 * 1024) (ini_chunkSize b)) in *.
    rewrite Math_ceil_div_Z by lia.
    pose proof (Z.div_mod (ini_totalSize b + c - 1) c ltac:(lia)) as Hdm.
    pose proof (Z.mod_pos_bound (ini_totalSize b + c - 1) c ltac:(lia)) as Hmod.
    nia.
  - intros Hsg. rewrite Hsg in *.
    rewrite bool_decide_eq_false_2 in Hchunk, Htotal by done. done.
Qed.

Lemma initiate_chunks_cover_file_witness :
  let run := initiate sample_svc sample_env 1000 "k3x9" "row-1" "alice"
               chunked_initiate empty_world in
  InitiateUploadSchema chunked_initiate = true
  /\ run.1 = mkReply 200
               (initiate_body "mp-1" "alice/1000-cat.png" multipart 5242880 2)
  /\ (2 - 1) * 5242880 < ini_totalSize chunked_initiate <= 2 * 5242880.
Proof.
  intros run. split; [reflexivity|]. split; [reflexivity|].
  destruct (initiate_chunks_cover_file sample_svc sample_env 1000 "k3x9" "row-1"
              "alice" chunked_initiate empty_world "mp-1" "alice/1000-cat.png"
              multipart 5242880 2 run.2 eq_refl eq_refl) as [H _].
  by destruct (H eq_refl) as (_ & _ & Hcover).
Defined.

(** ** Routes that only read *)

(** X12.  POST /url and GET /status never write: whatever the request and
    whatever they answer, the table, the objects and the timers are as
    before.  On an active record POST /url answers 200 with the presigned URL
    of the record's bucket and key, expiring one hour after the clock, except
    for a multipart record without a part number (absent or 0), which gets
    400. *)
Theorem read_only_routes env now userId uploadId partNo w :
  (get_url env now userId uploadId partNo w).2 = w
  /\ (upload_status_route userId uploadId w).2 = w
  /\ (forall r,
        getUploadRecord uploadId userId (uploads w) = Some r ->
        status r = active ->
        (get_url env now userId uploadId partNo w).1
        = if bool_decide (upload_type r = multipart)
             && bool_decide (partNo = None \/ partNo = Some 0)
          then mkReply 400 (error_body "Part number required for multipart upload")
          else mkReply 200 (url_body (presigned env (bucket r) (s3_key r))
                              (now + 3600000))).
Proof.
  unfold get_url, upload_status_route. unfold_async.
  destruct (getUploadRecord uploadId userId (uploads w)) as [r|] eqn:Hr.
  - split; [|split].
    + destruct (bool_decide (status r = active)); cbn [negb]; [|done].
      destruct (bool_decide (upload_type r = multipart)); [|done].
      destruct partNo as [n|]; [|done]. by destruct (bool_decide (n = 0)).
    + cbn. by destruct (bool_decide (upload_type r = multipart)).
    + intros r0 [= <-] Hact. rewrite Hact.
      rewrite (bool_decide_eq_true_2 (active = active)) by done. cbn [negb].
      destruct (bool_decide (upload_type r = multipart)); [|done].
      destruct partNo as [n|].
      * destruct (decide (n = 0)) as [->|Hn].
        -- rewrite !bool_decide_eq_true_2 by (done || by right). done.
        -- rewrite (bool_decide_eq_false_2 (n = 0)) by done.
           rewrite bool_decide_eq_false_2; [done|].
           intros [?|[= ?]]; done.
      * rewrite bool_decide_eq_true_2 by (by left). done.
  - split; [done|]. split; [done|]. by intros r.
Qed.

(** ** Writes stay in their row *)

(** X13.  POST /complete-part, POST /complete and POST /abort for one upload
    id, and a promotion of it, leave the row of every other upload id as it
    was, whatever they answer. *)
Theorem routes_write_one_row scan svc env now userId uploadId other w :
  other ≠ uploadId ->
  (forall n tag sz,
     uploads (complete_part now userId (mkCompletePart uploadId n tag sz) w).2
       !! other = uploads w !! other)
  /\ (forall ps,
        uploads (complete env now userId (mkComplete uploadId ps) w).2 !! other
        = uploads w !! other)
  /\ uploads (abort env now userId uploadId w).2 !! other = uploads w !! other
  /\ ((forall key w0, uploads (scan key w0).2 = uploads w0) ->
      uploads (processUpload_with scan svc env now uploadId userId w).2 !! other
      = uploads w !! other).
Proof.
  intros Hne. split; [|split; [|split]].
  - intros n tag sz. unfold complete_part, updateUploadPart. unfold_async.
    cbn [cp_uploadId]. destruct (getUploadRecord _ _ _) as [r|] eqn:Hr; [|done].
    destruct (bool_decide (upload_type r = multipart)); [|done]. cbn.
    rewrite Hr. cbn. by apply update_eq_other.
  - intros ps. unfold complete. unfold_async. cbn [cu_uploadId cu_parts].
    destruct (getUploadRecord _ _ _) as [r|] eqn:Hr; [|done].
    destruct (bool_decide (status r = active)); [|done]. cbn [negb].
    destruct (bool_decide (upload_type r = multipart)).
    + destruct ps as [[|p ps]|]; [done| |done].
      destruct (complete_ok env _); cbn;
        [apply update_eq_other|apply update_eq_other]; done.
    + cbn. by apply update_eq_other.
  - unfold abort. unfold_async.
    destruct (getUploadRecord _ _ _) as [r|] eqn:Hr; [|done].
    destruct (bool_decide (upload_type r = multipart)).
    + destruct (abort_ok env); cbn; [by apply update_eq_other|done].
    + cbn. by apply update_eq_other.
  - intros Hscan. unfold processUpload_with, cleanupFailedProcessing,
      ignore_errors, markUploadCompleted, markUploadFailed. unfold_async.
    destruct (getUploadRecord _ _ _) as [r|] eqn:Hr; [|done].
    destruct (bool_decide (status r = completed)); [|done]. cbn [negb].
    destruct (copy_ok env); cbn.
    + match goal with |- context [scan ?k ?w0] =>
        pose proof (Hscan k w0) as Hs; destruct (scan k w0) as [[res|e] w1]
      end; cbn in Hs |- *.
      * destruct (clean res); cbn [negb].
        -- destruct (delete_ok env (tempBucket svc) (s3_key r)); cbn.
           ++ rewrite update_eq_other by done. by rewrite Hs.
           ++ destruct (delete_ok env (finalBucket svc) (s3_key r)); cbn;
                rewrite !update_eq_other by done; by rewrite Hs.
        -- destruct (delete_ok env (finalBucket svc) (s3_key r)); cbn.
           ++ by rewrite Hs.
           ++ destruct (delete_ok env (tempBucket svc) (s3_key r)); cbn;
                rewrite update_eq_other by done; by rewrite Hs.
      * destruct (delete_ok env (finalBucket svc) (s3_key r));
          destruct (delete_ok env (tempBucket svc) (s3_key r)); cbn;
          rewrite update_eq_other by done; by rewrite Hs.
    + destruct (delete_ok env (finalBucket svc) (s3_key r));
        destruct (delete_ok env (tempBucket svc) (s3_key r)); cbn;
        by rewrite update_eq_other.
Qed.

Lemma routes_write_one_row_witness :
  let other := "single-1000-k3x9" in
  let w := two_uploads_world in
  other ≠ "up-1"
  /\ uploads w !! other = Some single_record
  /\ uploads (complete_part 2000 "alice" (mkCompletePart "up-1" 2 "etag-2" 4757120) w).2
       !! other = Some single_record
  /\ uploads (complete sample_env 2000 "alice"
                (mkComplete "up-1" (Some [(1, "etag-a")])) w).2 !! other
     = Some single_record
  /\ uploads (abort sample_env 2000 "alice" "up-1" w).2 !! other
     = Some single_record
  /\ uploads (processUpload sample_svc sample_env 2000 "up-1" "alice" w).2 !! other
     = Some single_record.
Proof.
  intros other w.
  assert (Hne : other ≠ "up-1") by done.
  assert (Hrow : uploads w !! other = Some single_record) by reflexivity.
  destruct (routes_write_one_row performVirusScan sample_svc sample_env 2000
              "alice" "up-1" other w Hne) as (H1 & H2 & H3 & H4).
  split; [exact Hne|]. split; [exact Hrow|].
  split; [by rewrite H1|]. split; [by rewrite H2|]. split; [by rewrite H3|].
  unfold processUpload. by rewrite H4.
Defined.

(** ** Promotion, case by case *)

Section Objects.
Implicit Types (x y : string * string) (objs : gset (string * string)).

Lemma drop_gone x objs : x ∉ objs ∖ {[ x ]}.
Proof. intros [_ Hn]%elem_of_difference. by apply Hn, elem_of_singleton. Qed.

Lemma drop_keeps_gone x y objs : x ∉ objs -> x ∉ objs ∖ {[ y ]}.
Proof. by intros Hn [H _]%elem_of_difference. Qed.

Lemma drop_subseteq y objs : objs ∖ {[ y ]} ⊆ objs.
Proof. by intros x [H _]%elem_of_difference. Qed.
End Objects.


(** X15.  Promotion of a completed record with the shipped scanner succeeds
    exactly when the copy and the deletion of the temp object both succeed;
    then the record stays completed and the object is in the final bucket
    and not in the temp bucket.  Otherwise the record ends failed.  The
    final key and bucket are stored as soon as the copy has succeeded, so
    when only the deletion of the temp object is refused the record is
    failed with its final key set, and the cleanup has removed the final
    object that the key names (if the store lets it). *)
Theorem processUpload_outcome svc env now uploadId userId w r :
  getUploadRecord uploadId userId (uploads w) = Some r ->
  status r = completed ->
  let run := processUpload svc env now uploadId userId w in
  let ok := copy_ok env && delete_ok env (tempBucket svc) (s3_key r) in
  exists res r',
    run.1 = Resolved res
    /\ success res = ok
    /\ getUploadRecord uploadId userId (uploads run.2) = Some r'
    /\ status r' = (if ok then completed else failed)
    /\ final_s3_key r'
       = (if copy_ok env then Some (s3_key r) else final_s3_key r)
    /\ final_bucket r'
       = (if copy_ok env then Some (finalBucket svc) else final_bucket r)
    /\ processing_status r' = processing_status r
    /\ timers run.2 = timers w
    /\ (ok = true ->
        objects run.2
        = ({[ (finalBucket svc, s3_key r) ]} ∪ objects w)
            ∖ {[ (tempBucket svc, s3_key r) ]})
    /\ (copy_ok env = true ->
        delete_ok env (tempBucket svc) (s3_key r) = false ->
        delete_ok env (finalBucket svc) (s3_key r) = true ->
        (finalBucket svc, s3_key r) ∉ objects run.2).
Proof.
  intros Hr Hst run ok. subst run ok.
  unfold processUpload, processUpload_with, performVirusScan,
    cleanupFailedProcessing, ignore_errors, markUploadCompleted,
    markUploadFailed.
  unfold_async. rewrite Hr, Hst.
  rewrite (bool_decide_eq_true_2 (completed = completed)) by done. cbn [negb].
  pose proof (getUploadRecord_update_eq uploadId userId) as Hup.
  destruct (copy_ok env); cbn.
  - destruct (delete_ok env (tempBucket svc) (s3_key r)) eqn:Htemp; cbn.
    + eexists _, _. split; [reflexivity|]. split; [done|].
      split; [by apply Hup|]. done.
    + destruct (delete_ok env (finalBucket svc) (s3_key r)) eqn:Hfinal; cbn.
      * eexists _, _. split; [reflexivity|]. split; [done|].
        split; [apply Hup; by apply Hup|]. repeat (split; [done|]).
        intros _ _ _. apply drop_gone.
      * eexists _, _. split; [reflexivity|]. split; [done|].
        split; [apply Hup; by apply Hup|]. done.
  - destruct (delete_ok env (finalBucket svc) (s3_key r));
      destruct (delete_ok env (tempBucket svc) (s3_key r)); cbn;
      (eexists _, _; split; [reflexivity|]; split; [done|];
       split; [by apply Hup|]; done).
Qed.

Lemma processUpload_outcome_witness :
  let r := sample_record_with completed [sample_part] in
  let run := processUpload sample_svc temp_delete_refused_env 4000 "up-1" "alice"
               completed_world in
  getUploadRecord "up-1" "alice" (uploads completed_world) = Some r
  /\ status r = completed
  /\ exists res r',
       run.1 = Resolved res /\ success res = false
       /\ getUploadRecord "up-1" "alice" (uploads run.2) = Some r'
       /\ status r' = failed
       /\ final_s3_key r' = Some "alice/1000-cat.png"
       /\ ("final", "alice/1000-cat.png") ∉ objects run.2.
Proof.
  intros r run. split; [reflexivity|]. split; [reflexivity|].
  destruct (processUpload_outcome sample_svc temp_delete_refused_env 4000 "up-1"
              "alice" completed_world r eq_refl eq_refl)
    as (res & r' & H1 & H2 & H3 & H4 & H5 & _ & _ & _ & _ & H10).
  exists res, r'. repeat (split; [done|]). by apply H10.
Defined.

(** X16.  [cleanupFailedProcessing] always resolves and never writes the
    table or the timers: a refused deletion is swallowed.  Each of the two
    objects whose deletion the store accepts is gone afterwards. *)
Theorem cleanupFailedProcessing_resolves svc env finalKey tempKey w :
  exists w',
    cleanupFailedProcessing svc env finalKey tempKey w = (Resolved tt, w')
    /\ uploads w' = uploads w /\ timers w' = timers w
    /\ objects w' ⊆ objects w
    /\ (delete_ok env (finalBucket svc) finalKey = true ->
        (finalBucket svc, finalKey) ∉ objects w')
    /\ (delete_ok env (tempBucket svc) tempKey = true ->
        (tempBucket svc, tempKey) ∉ objects w').
Proof.
  unfold cleanupFailedProcessing, ignore_errors. unfold_async.
  destruct (delete_ok env (finalBucket svc) finalKey);
    destruct (delete_ok env (tempBucket svc) tempKey); cbn;
    eexists; (split; [reflexivity|]); cbn;
    (split; [done|]); (split; [done|]).
  - split; [etrans; apply drop_subseteq|].
    split; intros _; [apply drop_keeps_gone|]; apply drop_gone.
  - split; [apply drop_subseteq|]. split; [intros _; apply drop_gone|done].
  - split; [apply drop_subseteq|]. split; [done|intros _; apply drop_gone].
  - done.
Qed.

(** X17.  Completion followed by its promotion: when POST /complete has
    answered 200 on a world without pending timers, the timer it registered
    is the next to fire; if the object store then accepts the copy and the
    deletion of the temp object, the promotion succeeds, no timer is left,
    and the record is completed with the temp key as final key and the final
    bucket as final bucket.  The object is in the final bucket provided the
    final bucket is not the temp bucket. *)
Theorem complete_then_promote svc env1 env2 now1 now2 userId b w reply w1 :
  complete env1 now1 userId b w = (reply, w1) ->
  status_code reply = 200 ->
  timers w = [] ->
  copy_ok env2 = true ->
  (forall key, delete_ok env2 (tempBucket svc) key = true) ->
  exists r w2 r2,
    getUploadRecord (cu_uploadId b) userId (uploads w) = Some r
    /\ fire_timer svc env2 now2 w1
       = Some (Resolved (mkResult true (Some (s3_key r)) None None None), w2)
    /\ getUploadRecord (cu_uploadId b) userId (uploads w2) = Some r2
    /\ status r2 = completed
    /\ final_s3_key r2 = Some (s3_key r)
    /\ final_bucket r2 = Some (finalBucket svc)
    /\ (tempBucket svc ≠ finalBucket svc ->
        (finalBucket svc, s3_key r) ∈ objects w2)
    /\ (tempBucket svc, s3_key r) ∉ objects w2.
Proof.
  intros Hrun Hok Hnone Hcopy Hdel.
  destruct (complete_200 _ _ _ _ _ _ _ Hrun Hok) as (r & Hr & _ & _ & Hdb & Ht).
  destruct (status_after_markUploadCompleted (cu_uploadId b) userId
              None None None None None now1 (uploads w) r Hr)
    as (r1 & Hr1 & Hst1 & _).
  assert (Hkey : s3_key r1 = s3_key r).
  { unfold markUploadCompleted in Hr1.
    rewrite (getUploadRecord_update_eq _ _ _ _ r Hr) in Hr1.
    by injection Hr1 as <-. }
  rewrite <- Hdb in Hr1.
  set (w1' := mkWorld (uploads w1) (objects w1) []).
  destruct (processUpload_promoted svc env2 now2 (cu_uploadId b) userId w1' r1
              Hr1 Hst1 Hcopy (Hdel _))
    as (Hres & Hobj & r2 & Hr2 & Hst2 & Hf & Hb & _).
  exists r, (processUpload svc env2 now2 (cu_uploadId b) userId w1').2, r2.
  split; [done|]. split.
  { unfold fire_timer. rewrite Ht, Hnone. cbn [app]. fold w1'.
    rewrite <- Hkey, <- Hres. by destruct (processUpload _ _ _ _ _ _). }
  rewrite <- Hkey. repeat (split; [done|]). rewrite Hobj. split.
  - intros Hbk. apply elem_of_difference.
    split; [by apply elem_of_union_l, elem_of_singleton|].
    intros [= Heq]%elem_of_singleton. by apply Hbk.
  - apply drop_gone.
Qed.

Lemma complete_then_promote_witness :
  let b := mkComplete "up-1" (Some [(1, "etag-a")]) in
  let run := complete sample_env 2000 "alice" b active_world in
  status_code run.1 = 200
  /\ timers active_world = []
  /\ exists w2 r2,
       fire_timer sample_svc sample_env 3000 run.2
       = Some (Resolved (mkResult true (Some "alice/1000-cat.png") None None None), w2)
       /\ getUploadRecord "up-1" "alice" (uploads w2) = Some r2
       /\ final_s3_key r2 = Some "alice/1000-cat.png"
       /\ ("final", "alice/1000-cat.png") ∈ objects w2.
Proof.
  intros b run. split; [reflexivity|]. split; [reflexivity|].
  destruct (complete_then_promote sample_svc sample_env sample_env 2000 3000
              "alice" b active_world run.1 run.2)
    as (r & w2 & r2 & Hr & Hfire & Hr2 & _ & Hf & _ & Hin & _);
    [apply surjective_pairing | reflexivity | reflexivity | reflexivity
    | reflexivity |].
  assert (Hsame : Some r = Some (sample_record_with active [sample_part]))
    by (rewrite <- Hr; reflexivity).
  injection Hsame as ->.
  exists w2, r2. split; [exact Hfire|]. split; [exact Hr2|]. split; [exact Hf|].
  by apply Hin.
Defined.

(** ** The order of the part list *)

Lemma part_numbers_determine (ps : list (Z * string)) x y :
  NoDup ps.*1 -> x ∈ ps -> y ∈ ps -> x.1 = y.1 -> x = y.
Proof.
  induction ps as [|p ps IH]; [by intros _ ?%elem_of_nil|].
  rewrite fmap_cons, NoDup_cons. intros [Hp Hnd].
  rewrite !elem_of_cons. intros [->|Hx] [->|Hy] Heq.
  - done.
  - exfalso. apply Hp. rewrite Heq. by apply list_elem_of_fmap_2.
  - exfalso. apply Hp. rewrite <- Heq. by apply list_elem_of_fmap_2.
  - by apply IH.
Qed.

#[global] Instance part_le_total : Total part_le.
Proof. intros a b. unfold part_le. lia. Qed.

#[global] Instance part_le_trans : Transitive part_le.
Proof. intros a b c. unfold part_le. lia. Qed.

Lemma sorted_parts_unique (ps ps' : list (Z * string)) :
  ps ≡ₚ ps' -> NoDup ps.*1 ->
  merge_sort part_le ps = merge_sort part_le ps'.
Proof.
  intros Hperm Hnd. apply (Sorted_unique_strong part_le).
  - intros x1 x2 Hx1 Hx2 H12 H21.
    rewrite merge_sort_Permutation in Hx1.
    rewrite merge_sort_Permutation, <- Hperm in Hx2.
    apply (part_numbers_determine ps); [done..|]. unfold part_le in *. lia.
  - apply (Sorted_merge_sort _).
  - apply (Sorted_merge_sort _).
  - by rewrite !merge_sort_Permutation.
Qed.

(** X18.  The object store is handed the request's part list in ascending
    order of part number: for a part list with distinct part numbers, the
    list on which the store decides is sorted and holds exactly the
    request's parts, and the call resolves (the assembled object appears)
    or rejects as the store answers on that list.  A store that accepts
    ascending lists only therefore accepts the list however the client
    ordered it, and two requests that list the same parts in different
    orders get the same reply and leave the same state. *)
Theorem complete_ignores_part_order now userId uploadId (ps ps' : list (Z * string)) :
  ps ≡ₚ ps' ->
  NoDup ps.*1 ->
  exists sent,
    Sorted part_le sent
    /\ sent ≡ₚ ps
    /\ (forall env b k w,
          completeMultipartUpload env b k uploadId ps w
          = if complete_ok env sent
            then (Resolved tt,
                  mkWorld (uploads w) ({[ (b, k) ]} ∪ objects w) (timers w))
            else (Rejected "CompleteMultipartUpload failed", w))
    /\ (forall env b k w,
          completeMultipartUpload env b k uploadId ps' w
          = completeMultipartUpload env b k uploadId ps w)
    /\ (forall env b k w,
          (forall l, complete_ok env l = bool_decide (Sorted part_le l)) ->
          (completeMultipartUpload env b k uploadId ps w).1 = Resolved tt)
    /\ (forall env w,
          complete env now userId (mkComplete uploadId (Some ps)) w
          = complete env now userId (mkComplete uploadId (Some ps')) w).
Proof.
  intros Hperm Hnd.
  pose proof (sorted_parts_unique ps ps' Hperm Hnd) as Hsort.
  assert (Hsorted : Sorted part_le (merge_sort part_le ps))
    by apply (Sorted_merge_sort _).
  exists (merge_sort part_le ps).
  split; [exact Hsorted|]. split; [apply merge_sort_Permutation|].
  split; [|split; [|split]].
  - intros env b k w. unfold completeMultipartUpload, put_object, throw.
    by destruct (complete_ok env _).
  - intros env b k w. unfold completeMultipartUpload. by rewrite Hsort.
  - intros env b k w Hasc. unfold completeMultipartUpload, put_object.
    by rewrite Hasc, bool_decide_eq_true_2.
  - intros env w. unfold complete, completeMultipartUpload. unfold_async.
    cbn [cu_uploadId cu_parts].
    destruct (getUploadRecord _ _ _) as [r|]; [|done].
    destruct (bool_decide (status r = active)); [|done]. cbn [negb].
    destruct (bool_decide (upload_type r = multipart)); [|done].
    destruct ps as [|p ps].
    + apply Permutation_nil_l in Hperm. by subst ps'.
    + destruct ps' as [|p' ps'];
        [by apply Permutation_nil_r in Hperm|].
      by rewrite Hsort.
Qed.

Lemma complete_ignores_part_order_witness :
  let ps := [(2, "etag-2"); (1, "etag-1")] in
  let ps' := [(1, "etag-1"); (2, "etag-2")] in
  ps ≡ₚ ps' /\ NoDup ps.*1
  /\ complete_ok ascending_only_env ps = false
  /\ completeMultipartUpload ascending_only_env "temp" "alice/1000-cat.png" "up-1"
       ps empty_world
     = (Resolved tt,
        mkWorld ∅ ({[ ("temp", "alice/1000-cat.png") ]} ∪ ∅) [])
  /\ complete ascending_only_env 2000 "alice" (mkComplete "up-1" (Some ps))
       active_world
     = complete ascending_only_env 2000 "alice" (mkComplete "up-1" (Some ps'))
         active_world.
Proof.
  intros ps ps'.
  assert (Hperm : ps ≡ₚ ps') by apply perm_swap.
  assert (Hnd : NoDup ps.*1) by (apply (bool_decide_unpack _); reflexivity).
  split; [exact Hperm|]. split; [exact Hnd|]. split; [reflexivity|].
  destruct (complete_ignores_part_order 2000 "alice" "up-1" ps ps' Hperm Hnd)
    as (sent & Hsorted & _ & Hstore & _ & _ & Hroute).
  split; [|apply Hroute].
  rewrite Hstore. cbn [complete_ok ascending_only_env].
  by rewrite bool_decide_eq_true_2.
Defined.

(** ** Part reports under any schedule *)

Lemma elem_of_upsert_parts np p ps :
  p ∈ upsert_parts np ps -> p = np \/ p ∈ ps.
Proof.
  induction ps as [|q ps IH].
  - rewrite upsert_parts_nil. intros ->%list_elem_of_singleton. by left.
  - rewrite upsert_parts_cons. case_bool_decide.
    + rewrite !elem_of_cons. tauto.
    + rewrite !elem_of_cons. intros [->|Hin]; [tauto|].
      destruct (IH Hin); tauto.
Qed.

Lemma step_pool_ok uploadId userId origin st i :
  pool_ok uploadId userId origin st ->
  pool_ok uploadId userId origin (step uploadId userId st i).
Proof.
  destruct st as [calls db]. intros [Hcalls Hdb]. unfold step. cbn [fst snd] in *.
  destruct (calls !! i) as [c|] eqn:Hi; [|done].
  assert (Hc : call_ok origin c) by (by eapply Forall_lookup_1).
  destruct c as [rep|now ps|ok]; cbn [step_call].
  - destruct (getUploadRecord uploadId userId db) as [r|] eqn:Hr.
    + split; cbn [fst snd]; [|intros r0; rewrite Hr; apply Hdb].
      apply Forall_insert; [done|].
      destruct (Hdb r eq_refl) as [Hnd Horigin]. split.
      * by apply upsert_parts_NoDup.
      * intros p [->|Hin]%elem_of_upsert_parts; [done|by apply Horigin].
    + split; cbn [fst snd]; [|intros r0; rewrite Hr; apply Hdb].
      by apply Forall_insert.
  - split; cbn [fst snd]; [by apply Forall_insert|].
    intros r'. destruct (getUploadRecord uploadId userId db) as [r|] eqn:Hr.
    + rewrite (getUploadRecord_update_eq _ _ _ _ r Hr). by intros [= <-].
    + rewrite update_eq_no_row by done. by rewrite Hr.
  - split; cbn [fst snd]; [by apply Forall_insert|done].
Qed.

Lemma run_schedule_pool_ok uploadId userId origin schedule : forall st,
  pool_ok uploadId userId origin st ->
  pool_ok uploadId userId origin (run_schedule uploadId userId schedule st).
Proof.
  induction schedule as [|i schedule IH]; intros st Hst; [done|].
  apply IH. by apply step_pool_ok.
Qed.

(** X19.  However the reads and writes of concurrent part reports for one
    upload interleave, the stored array never holds a part number twice and
    never holds anything but a part that was stored before or one of the
    reported parts. *)
Theorem interleaved_reports_keep_parts_distinct
    uploadId userId (schedule : list nat) (reports : list PartReport)
    (db : Uploads) r r' :
  getUploadRecord uploadId userId db = Some r ->
  NoDup (partNumber <$> parts r) ->
  getUploadRecord uploadId userId
    (run_schedule uploadId userId schedule (AwaitRead <$> reports, db)).2 = Some r' ->
  NoDup (partNumber <$> parts r')
  /\ forall p, p ∈ parts r' -> p ∈ parts r \/ exists rep, rep ∈ reports /\ p = part_of rep.
Proof.
  intros Hr Hnd Hr'.
  set (origin := fun p => p ∈ parts r \/ exists rep, rep ∈ reports /\ p = part_of rep).
  assert (Hinit : pool_ok uploadId userId origin (AwaitRead <$> reports, db)).
  { split; cbn [fst snd].
    - apply Forall_fmap, Forall_forall. intros rep Hin. right. by exists rep.
    - intros r0. rewrite Hr. intros [= <-]. split; [done|]. by left. }
  destruct (run_schedule_pool_ok uploadId userId origin schedule _ Hinit)
    as [_ Hfinal].
  exact (Hfinal r' Hr').
Qed.

Lemma interleaved_reports_keep_parts_distinct_witness :
  let db : Uploads := {[ "up-1" := sample_record_with active [] ]} in
  let final := run_schedule "up-1" "alice" [0; 1; 0; 1]%nat
                 (AwaitRead <$> racing_reports, db) in
  let r' := apply_patch
              (mkPatch None None (Some 1002)
                 (Some [mkPart 2 (Some "etag-2") 4757120 (Some 1002)])
                 None None None None None None None None)
              (sample_record_with active []) in
  getUploadRecord "up-1" "alice" db = Some (sample_record_with active [])
  /\ getUploadRecord "up-1" "alice" final.2 = Some r'
  /\ NoDup (partNumber <$> parts r').
Proof.
  intros db final r'.
  assert (H0 : getUploadRecord "up-1" "alice" db
               = Some (sample_record_with active [])) by reflexivity.
  assert (H1 : getUploadRecord "up-1" "alice" final.2 = Some r') by reflexivity.
  split; [exact H0|]. split; [exact H1|].
  by destruct (interleaved_reports_keep_parts_distinct "up-1" "alice"
                 [0; 1; 0; 1]%nat racing_reports db
                 (sample_record_with active []) r' H0 (NoDup_nil_2) H1).
Defined.

(** ** The status routes *)

Lemma set_property_lookup key v (response : gmap string UploadStatusView) u :
  u ≠ "__proto__" ->
  set_property key v response !! u
  = if bool_decide (key = u) then Some v else response !! u.
Proof.
  intros Hu. unfold set_property. case_bool_decide as Hp.
  - subst key. by rewrite bool_decide_eq_false_2 by done.
  - case_bool_decide as Hk; [subst; apply lookup_insert_eq|by apply lookup_insert_ne].
Qed.

Lemma bulk_fold userId (db : Uploads) (u : string) (uploadIds : list string) :
  u ≠ "__proto__" ->
  forall response : gmap string UploadStatusView,
  foldl (fun response '(uploadId, st) =>
           match st with
           | Some v => set_property uploadId v response
           | None => response
           end) response
        ((fun uploadId => (uploadId, getUploadStatus uploadId userId db)) <$> uploadIds)
  !! u
  = match (if bool_decide (u ∈ uploadIds) then getUploadStatus u userId db else None) with
    | Some v => Some v
    | None => response !! u
    end.
Proof.
  intros Hu. induction uploadIds as [|i ids IH]; intros response; [done|].
  cbn [fmap list_fmap foldl]. rewrite IH.
  destruct (decide (u ∈ ids)) as [Hin|Hin].
  - rewrite (bool_decide_eq_true_2 _ Hin).
    rewrite (bool_decide_eq_true_2 (u ∈ i :: ids)) by (by right).
    destruct (getUploadStatus u userId db) as [v|] eqn:Hv; [done|].
    destruct (getUploadStatus i userId db) as [vi|] eqn:Hvi; [|done].
    rewrite set_property_lookup by done.
    destruct (decide (i = u)) as [->|Hiu]; [congruence|].
    by rewrite bool_decide_eq_false_2.
  - rewrite (bool_decide_eq_false_2 _ Hin).
    destruct (decide (i = u)) as [->|Hne].
    + rewrite (bool_decide_eq_true_2 (u ∈ u :: ids)) by left.
      destruct (getUploadStatus u userId db) as [v|]; [|done].
      rewrite set_property_lookup by done. by rewrite bool_decide_eq_true_2.
    + rewrite (bool_decide_eq_false_2 (u ∈ i :: ids))
        by (rewrite not_elem_of_cons; split; [congruence|done]).
      destruct (getUploadStatus i userId db) as [vi|]; [|done].
      rewrite set_property_lookup by done. by rewrite bool_decide_eq_false_2.
Qed.

Lemma bulk_fold_proto userId (db : Uploads) (uploadIds : list string) :
  forall response : gmap string UploadStatusView,
  foldl (fun response '(uploadId, st) =>
           match st with
           | Some v => set_property uploadId v response
           | None => response
           end) response
        ((fun uploadId => (uploadId, getUploadStatus uploadId userId db)) <$> uploadIds)
  !! "__proto__" = response !! "__proto__".
Proof.
  induction uploadIds as [|i ids IH]; intros response; [done|].
  cbn [fmap list_fmap foldl]. rewrite IH.
  destruct (getUploadStatus i userId db) as [vi|]; [|done].
  unfold set_property. case_bool_decide as Hp; [done|].
  by apply lookup_insert_ne.
Qed.

(** X20.  The bulk status route answers with one entry per requested upload
    id that the caller owns, holding what the status facade answers for it;
    requested ids without such a record are left out, ids that were not
    requested never appear, a repeated id gives one entry, and the key
    '__proto__' never becomes an entry.  Every entry is what the single
    status route answers for that id. *)
Theorem bulk_status_route_spec userId (uploadIds : list string) w :
  (forall u, u ≠ "__proto__" ->
     bulk_status_route userId uploadIds w !! u
     = if bool_decide (u ∈ uploadIds) then getUploadStatus u userId (uploads w)
       else None)
  /\ bulk_status_route userId uploadIds w !! "__proto__" = None
  /\ (forall u v, bulk_status_route userId uploadIds w !! u = Some v ->
        u ∈ uploadIds /\ processing_status_route userId u w = processing_ok v).
Proof.
  assert (H1 : forall u, u ≠ "__proto__" ->
     bulk_status_route userId uploadIds w !! u
     = if bool_decide (u ∈ uploadIds) then getUploadStatus u userId (uploads w)
       else None).
  { intros u Hu. unfold bulk_status_route. cbn zeta. rewrite bulk_fold by done.
    rewrite lookup_empty.
    by destruct (if bool_decide (u ∈ uploadIds) then _ else _). }
  assert (H2 : bulk_status_route userId uploadIds w !! "__proto__" = None).
  { unfold bulk_status_route. cbn zeta. by rewrite bulk_fold_proto. }
  split; [exact H1|]. split; [exact H2|].
  intros u v Hv. destruct (decide (u = "__proto__")) as [->|Hu]; [congruence|].
  rewrite H1 in Hv by done. case_bool_decide as Hin; [|done].
  split; [done|]. unfold processing_status_route. by rewrite Hv.
Qed.

(** X21.  GET /status on a single-part record reports one part; the uploaded
    size is the total size once the record is completed and 0 in every other
    status, and the progress is 100 or 0 accordingly (0 also for an empty
    file). *)
Theorem status_route_single userId uploadId w r :
  getUploadRecord uploadId userId (uploads w) = Some r ->
  upload_type r = single ->
  exists progress,
    upload_status_route userId uploadId w
    = (mkReply 200
         (status_body uploadId (status r) single (parts r) 1
            (if bool_decide (status r = completed) then total_size r else 0)
            (total_size r) progress), w)
    /\ (progress
        == if bool_decide (status r = completed) && (0 <? total_size r)
           then inject_Z 100 else 0)%Q.
Proof.
  intros Hr Hty. unfold upload_status_route. unfold_async. rewrite Hr, Hty.
  rewrite (bool_decide_eq_false_2 (single = multipart)) by done.
  eexists. split; [reflexivity|]. unfold Math_round.
  destruct (Z.ltb_spec 0 (total_size r)) as [Hpos|Hneg].
  - destruct (bool_decide (status r = completed)); cbn [andb].
    + assert (Hq : (inject_Z (total_size r) / inject_Z (total_size r)
                    * inject_Z 100 == inject_Z 100)%Q).
      { field. change 0%Q with (inject_Z 0). rewrite inject_Z_injective. lia. }
      rewrite Hq. reflexivity.
    + assert (Hq : (inject_Z 0 / inject_Z (total_size r) * inject_Z 100 == 0)%Q).
      { unfold Qdiv. change (inject_Z 0) with 0%Q. ring. }
      rewrite Hq. reflexivity.
  - rewrite andb_false_r. reflexivity.
Qed.

Lemma status_route_single_witness :
  getUploadRecord "single-1000-k3x9" "alice" (uploads single_world)
  = Some single_record
  /\ upload_type single_record = single
  /\ exists progress,
       upload_status_route "alice" "single-1000-k3x9" single_world
       = (mkReply 200
            (status_body "single-1000-k3x9" active single [] 1 0 1000 progress),
          single_world)
       /\ (progress == 0)%Q.
Proof.
  split; [reflexivity|]. split; [reflexivity|].
  exact (status_route_single "alice" "single-1000-k3x9" single_world
           single_record eq_refl eq_refl).
Defined.

(** ** The uploaded size *)






